(** * nope.py: command classification and confirmation gating

    A shallow embedding of [src/nope.py]: the three policy tables, the
    predicate helpers, the interactive [confirm] loop, [execute_command]
    and the request/response handler [api_execute_command].

    Conventions of the embedding.

    - A Python [str] is a Rocq [string]; one [ascii] stands for one code
      point below 256.  Every character the program or its tokenizers
      treat specially (white space, quotes, backslash, the letters of the
      table entries) lies in that range.
    - Effects are explicit.  A computation reads an ambient environment
      [Env], consumes lines of standard input, emits a trace of [Event]s
      and either returns a value or raises a Python exception.
    - The user-visible messages of the program all start with one of three
      pictographs (cross mark, pause sign, check mark) followed by text
      built from the command.  They are kept as the constructors of
      [Message] and [Prompt]; [glyph] gives the leading pictograph, which
      is all that [api_execute_command] inspects with [startswith]. *)

From Stdlib Require Import String Ascii List Bool Arith Lia.
Import ListNotations.
Open Scope string_scope.
Open Scope list_scope.

(* ------------------------------------------------------------------ *)
(** * Strings                                                          *)
(* ------------------------------------------------------------------ *)

Module Str.

(** The characters that cannot be written inside a string literal. *)
Definition dquote : ascii := "034"%char.
Definition squote : ascii := "039"%char.
Definition backslash : ascii := "092"%char.

(** [q + s + q] *)
Definition wrap (q : ascii) (s : string) : string :=
  String q (s ++ String q EmptyString).

(** [x in xs] for a Python list of strings. *)
Definition mem (x : string) (xs : list string) : bool :=
  existsb (String.eqb x) xs.

(** [str.isspace] on one code point below 256: the characters that
    [str.split()] without argument splits on. *)
Definition isspace (c : ascii) : bool :=
  let n := nat_of_ascii c in
  (((9 <=? n) && (n <=? 13)) || ((28 <=? n) && (n <=? 32))
   || (n =? 133) || (n =? 160))%nat.

(** [str.lower] on one code point below 256. *)
Definition lower_char (c : ascii) : ascii :=
  let n := nat_of_ascii c in
  if (((65 <=? n) && (n <=? 90))
      || ((192 <=? n) && (n <=? 222) && negb (n =? 215)))%nat
  then ascii_of_nat (n + 32) else c.

Fixpoint lower (s : string) : string :=
  match s with
  | EmptyString => EmptyString
  | String c r => String (lower_char c) (lower r)
  end.

(** [s.startswith(p)] *)
Definition startswith (p s : string) : bool := String.prefix p s.

(** The loop behind [str.split()]: [cur] is the word being read. *)
Fixpoint split_from (cur : string) (s : string) : list string :=
  match s with
  | EmptyString => if String.eqb cur EmptyString then [] else [cur]
  | String c r =>
      if isspace c
      then (if String.eqb cur EmptyString then split_from EmptyString r
            else cur :: split_from EmptyString r)
      else split_from (cur ++ String c EmptyString) r
  end.

(** [s.split()] *)
Definition split (s : string) : list string := split_from EmptyString s.

(** [c in s] for a character and a string. *)
Fixpoint has_char (c : ascii) (s : string) : bool :=
  match s with
  | EmptyString => false
  | String d r => Ascii.eqb c d || has_char c r
  end.

End Str.

(* ------------------------------------------------------------------ *)
(** * The tokenizer [shlex.split]                                      *)
(* ------------------------------------------------------------------ *)

(** [execute_command] tokenizes with [shlex.split(command)], that is the
    standard library's [shlex] lexer in POSIX mode with
    [whitespace_split = True], no comment characters and no punctuation
    characters.  [Shlex] transcribes the lexer's [read_token] state
    machine under these settings.  With [whitespace_split] on, a
    character that is neither white space, nor the escape character, nor
    a quote is added to the token whether it is a word character or not,
    so the word-character table does not appear. *)

Module Shlex.

Definition whitespace : string :=
  String " " (String "009" (String "013" (String "010" EmptyString))).
Definition quotes : string :=
  String Str.squote (String Str.dquote EmptyString).
Definition escape : string := String Str.backslash EmptyString.
Definition escapedquotes : string := String Str.dquote EmptyString.

(** The lexer's [state] attribute: [' '], ['a'], a quote character, or
    the escape character.  In the last case [escapedstate] is the state
    to come back to, ['a'] ([None]) or a quote character ([Some q]). *)
Inductive state :=
| InSpace
| InWord
| InQuote (q : ascii)
| InEscape (e : ascii) (escapedstate : option ascii).

Definition snoc (token : string) (c : ascii) : string :=
  token ++ String c EmptyString.

(** What the lexer hands out when the input ends outside quotes: the
    pending token, unless it is empty and nothing was quoted. *)
Definition at_eof (token : string) (quoted : bool) : list string :=
  if negb quoted && String.eqb token EmptyString then [] else [token].

(** All tokens of [s], or [None] where the lexer raises [ValueError]
    ("No closing quotation", "No escaped character"). *)
Fixpoint tokens (st : state) (token : string) (quoted : bool) (s : string)
  : option (list string) :=
  match s with
  | EmptyString =>
      match st with
      | InSpace | InWord => Some (at_eof token quoted)
      | InQuote _ => None
      | InEscape _ _ => None
      end
  | String c r =>
      match st with
      | InSpace =>
          if Str.has_char c whitespace then
            if negb (String.eqb token EmptyString) || quoted
            then option_map (cons token) (tokens InSpace EmptyString false r)
            else tokens InSpace token quoted r
          else if Str.has_char c escape then
            tokens (InEscape c None) token quoted r
          else if Str.has_char c quotes then
            tokens (InQuote c) token quoted r
          else tokens InWord (String c EmptyString) quoted r
      | InQuote q =>
          if Ascii.eqb c q then tokens InWord token true r
          else if Str.has_char c escape && Str.has_char q escapedquotes
          then tokens (InEscape c (Some q)) token true r
          else tokens (InQuote q) (snoc token c) true r
      | InEscape e escapedstate =>
          let token' :=
            match escapedstate with
            | Some q =>
                if negb (Ascii.eqb c e) && negb (Ascii.eqb c q)
                then snoc token e else token
            | None => token
            end in
          tokens (match escapedstate with
                  | Some q => InQuote q
                  | None => InWord
                  end) (snoc token' c) quoted r
      | InWord =>
          if Str.has_char c whitespace then
            if negb (String.eqb token EmptyString) || quoted
            then option_map (cons token) (tokens InSpace EmptyString false r)
            else tokens InSpace token quoted r
          else if Str.has_char c quotes then
            tokens (InQuote c) token quoted r
          else if Str.has_char c escape then
            tokens (InEscape c None) token quoted r
          else tokens InWord (snoc token c) quoted r
      end
  end.

(** [shlex.split(s)] *)
Definition split (s : string) : option (list string) :=
  tokens InSpace EmptyString false s.

End Shlex.

(* ------------------------------------------------------------------ *)
(** * Effects                                                          *)
(* ------------------------------------------------------------------ *)

(** The Python exceptions that can leave the modelled functions. *)
Inductive Exn :=
| IndexError                      (* [xs[0]] on an empty list *)
| ValueError                      (* [shlex.split] on unbalanced input *)
| EOFError                        (* [input()] at the end of standard input *)
| CalledProcessError              (* [check_output]: non-zero exit status *)
| FileNotFoundError               (* [check_output]: no such program *)
| UnicodeDecodeError              (* [bytes.decode] *)
| HTTPException (status_code : nat) (detail : string).

(** What [subprocess.run(parts, capture_output=True, text=True,
    check=True)] does, as seen by the [try] block of [execute_command]. *)
Inductive RunResult :=
| Completed (stdout : string)
| RunCalledProcessError (stderr : string)
| RunFileNotFoundError
| RunException (str : string).

(** The ambient context, fixed for the time of one submission. *)
Record Env := {
  has_real_prefix : bool;          (* [hasattr(sys, 'real_prefix')] *)
  base_prefix : option string;     (* [sys.base_prefix], when present *)
  prefix : string;                 (* [sys.prefix] *)
  ls : Exn + string;               (* [check_output(['ls']).decode()] *)
  run : list string -> RunResult   (* [subprocess.run] on a command line *)
}.

(** The texts handed to [confirm].
    [PromptRisk command]: "The command '{command}' may pose risks. Do you
    want to proceed?";
    [PromptFilter message command]: "{message} Do you want to proceed
    with the command '{command}'?" (both after a warning sign). *)
Inductive Prompt :=
| PromptRisk (command : string)
| PromptFilter (message : string) (command : string).

(** The observable actions.  [EvConfirm prompt read] is one call of
    [confirm(prompt)]: [read] lists the lines it took from standard
    input, each one asked for with [prompt], and every one but an
    accepted last one answered with "Please respond with 'y' or 'n'.". *)
Inductive Event :=
| EvConfirm (prompt : Prompt) (read : list string)
| EvCheckOutput (argv : list string)
| EvRun (argv : list string).

Inductive Outcome (A : Type) :=
| Value (a : A)
| Raise (e : Exn).
Arguments Value {A} a.
Arguments Raise {A} e.

Record Run (A : Type) := mkRun {
  outcome : Outcome A;
  stdin_left : list string;
  trace : list Event
}.
Arguments mkRun {A}.
Arguments outcome {A}.
Arguments stdin_left {A}.
Arguments trace {A}.

Definition M (A : Type) : Type := Env -> list string -> Run A.

Definition ret {A} (a : A) : M A :=
  fun _ stdin => mkRun (Value a) stdin [].

Definition raise {A} (e : Exn) : M A :=
  fun _ stdin => mkRun (Raise e) stdin [].

Definition bind {A B} (m : M A) (k : A -> M B) : M B :=
  fun env stdin =>
    let r := m env stdin in
    match outcome r with
    | Raise e => mkRun (Raise e) (stdin_left r) (trace r)
    | Value a =>
        let r' := k a env (stdin_left r) in
        mkRun (outcome r') (stdin_left r') (trace r ++ trace r')
    end.

Notation "x <- m ;; k" := (bind m (fun x => k))
  (at level 61, m at next level, right associativity).

(** [xs[0]] *)
Definition item0 (xs : list string) : M string :=
  match xs with
  | [] => raise IndexError
  | x :: _ => ret x
  end.

(** [shlex.split(command)] *)
Definition shlex_split (command : string) : M (list string) :=
  match Shlex.split command with
  | Some parts => ret parts
  | None => raise ValueError
  end.

(** [subprocess.check_output(['ls']).decode()] *)
Definition check_output_ls : M string :=
  fun env stdin =>
    mkRun (match ls env with inl e => Raise e | inr text => Value text end)
          stdin [EvCheckOutput ["ls"]].

(* ------------------------------------------------------------------ *)
(** * Helper functions                                                 *)
(* ------------------------------------------------------------------ *)

Definition is_within_virtualenv : M bool :=
  fun env stdin =>
    mkRun (Value (has_real_prefix env
                  || match base_prefix env with
                     | Some bp => negb (String.eqb bp (prefix env))
                     | None => false
                     end))
          stdin [].

Definition is_within_project_directory : M bool :=
  let required_files :=
    ["requirements.txt"; "package.json"; "Pipfile"; "pyproject.toml"] in
  text <- check_output_ls ;;
  let cwd_files := Str.split text in
  ret (existsb (fun file => Str.mem file cwd_files) required_files).

Definition is_trusted_host (host : string) : bool :=
  let trusted_hosts := ["github.com"; "gitlab.com"; "bitbucket.org"] in
  Str.mem host trusted_hosts.

Definition is_allowed_remote (remote : string) : bool :=
  let allowed_remotes := ["origin"; "upstream"] in
  Str.mem remote allowed_remotes.

(** The loop of [confirm]: the answer, the lines read, the lines left. *)
Fixpoint read_answer (stdin : list string)
  : Outcome bool * list string * list string :=
  match stdin with
  | [] => (Raise EOFError, [], [])
  | line :: more =>
      let response := Str.lower line in
      if Str.mem response ["y"; "yes"] then (Value true, [line], more)
      else if Str.mem response ["n"; "no"] then (Value false, [line], more)
      else let '(o, read, rest) := read_answer more in
           (o, line :: read, rest)
  end.

Definition confirm (prompt : Prompt) : M bool :=
  fun _ stdin =>
    let '(o, read, rest) := read_answer stdin in
    mkRun o rest [EvConfirm prompt read].

(** One entry of [secondary_filters]. *)
Module Filter.
Record t := mk {
  command : string;
  subcommand : option string;
  condition : list string -> M bool;
  message : string
}.
End Filter.

(* ------------------------------------------------------------------ *)
(** * Messages                                                         *)
(* ------------------------------------------------------------------ *)

(** The strings [execute_command] returns:
    - [NoCommandProvided]: "No command provided."
    - [Restricted b]: "The command '{b}' is restricted and cannot be
      executed."
    - [CancelledByUser]: "Command execution cancelled by the user."
    - [ExecutedSuccessfully out]: "Command executed successfully.\nOutput:\n{out}"
    - [ExecutionFailed err]: "Command execution failed.\nError:\n{err}"
    - [CommandNotFound b]: "Command '{b}' not found."
    - [UnexpectedError d]: "An unexpected error occurred: {d}" *)
Inductive Message :=
| NoCommandProvided
| Restricted (base_command : string)
| CancelledByUser
| ExecutedSuccessfully (stdout : string)
| ExecutionFailed (stderr : string)
| CommandNotFound (base_command : string)
| UnexpectedError (detail : string).

Inductive Glyph := CrossMark | PauseSign | CheckMark.

(** The pictograph a message starts with. *)
Definition glyph (m : Message) : Glyph :=
  match m with
  | ExecutedSuccessfully _ => CheckMark
  | CancelledByUser => PauseSign
  | NoCommandProvided | Restricted _ | ExecutionFailed _
  | CommandNotFound _ | UnexpectedError _ => CrossMark
  end.

(** A step of a function body either returns from the function or goes
    on with the (possibly updated) local [user_confirm]. *)
Inductive Flow (R : Type) :=
| Return (r : R)
| Next (user_confirm : option bool).
Arguments Return {R} r.
Arguments Next {R} user_confirm.

(** [not user_confirm] *)
Definition not_ (user_confirm : option bool) : bool :=
  match user_confirm with
  | Some true => false
  | Some false | None => true
  end.

(** Truth value of [filter.get("subcommand")]. *)
Definition truthy (subcmd : option string) : bool :=
  match subcmd with
  | Some s => negb (String.eqb s EmptyString)
  | None => false
  end.

(** [args[0] != subcmd], for [args] not empty and [subcmd] a string. *)
Definition first_differs (args : list string) (subcmd : option string) : bool :=
  match args, subcmd with
  | a :: _, Some s => negb (String.eqb a s)
  | _, _ => true
  end.

(* ------------------------------------------------------------------ *)
(** * Command execution                                                *)
(* ------------------------------------------------------------------ *)

(** The block both confirmation checks of [execute_command] share:
[[
    if user_confirm is None:
        user_confirm = confirm(prompt_msg)
    elif not user_confirm:
        return cancelled
    if not user_confirm:
        return cancelled
]] *)
Definition ask_or_cancel (prompt_msg : Prompt) (user_confirm : option bool)
  : M (Flow Message) :=
  step <- match user_confirm with
          | None => answer <- confirm prompt_msg ;; ret (Next (Some answer))
          | Some _ =>
              if not_ user_confirm then ret (Return CancelledByUser)
              else ret (Next user_confirm)
          end ;;
  match step with
  | Return m => ret (Return m)
  | Next user_confirm =>
      if not_ user_confirm then ret (Return CancelledByUser)
      else ret (Next user_confirm)
  end.

(** The [for filter in secondary_filters] loop of [execute_command]. *)
Fixpoint check_filters (command base_command : string) (args : list string)
    (user_confirm : option bool) (filters : list Filter.t)
  : M (Flow Message) :=
  match filters with
  | [] => ret (Next user_confirm)
  | filter :: more =>
      if String.eqb (Filter.command filter) base_command then
        let subcmd := Filter.subcommand filter in
        if truthy subcmd && (0 <? length args)%nat
           && first_differs args subcmd
        then check_filters command base_command args user_confirm more
        else
          fires <- Filter.condition filter args ;;
          if fires then
            step <- ask_or_cancel
                      (PromptFilter (Filter.message filter) command)
                      user_confirm ;;
            match step with
            | Return m => ret (Return m)
            | Next user_confirm =>
                check_filters command base_command args user_confirm more
            end
          else check_filters command base_command args user_confirm more
      else check_filters command base_command args user_confirm more
  end.

(** What the [except] clauses make of the result of [subprocess.run]. *)
Definition report (base_command : string) (r : RunResult) : Message :=
  match r with
  | Completed stdout => ExecutedSuccessfully stdout
  | RunCalledProcessError stderr => ExecutionFailed stderr
  | RunFileNotFoundError => CommandNotFound base_command
  | RunException str => UnexpectedError str
  end.

(** The [try] block at the end of [execute_command]. *)
Definition run_command (parts : list string) (base_command : string)
  : M Message :=
  fun env stdin =>
    mkRun (Value (report base_command (run env parts))) stdin [EvRun parts].

Module CommandRequest.
Record t := mk { command : string; confirm : option bool }.
End CommandRequest.

Inductive Status := success | blocked | cancelled | error.

Module CommandResponse.
Record t := mk { status : Status; message : Message }.
End CommandResponse.

(** The response the handler builds from the message of
    [execute_command]. *)
Definition respond (result_message : Message) : CommandResponse.t :=
  match glyph result_message with
  | CheckMark => CommandResponse.mk success result_message
  | PauseSign => CommandResponse.mk cancelled result_message
  | CrossMark => CommandResponse.mk error result_message
  end.

Definition http_400_confirm : Exn :=
  HTTPException 400
    "Confirmation required for this command. Please set 'confirm' to true or false.".

Definition http_400_filter (message : string) : Exn :=
  HTTPException 400 ("Confirmation required: " ++ message).

Section Gateway.

(** The module-level tables the two functions read. *)
Variables nope_commands confirm_commands : list string.
Variable secondary_filters : list Filter.t.

Definition execute_command_with (command : string) (user_confirm : option bool)
  : M Message :=
  parts <- shlex_split command ;;
  match parts with
  | [] => ret NoCommandProvided
  | base_command :: args =>
      if Str.mem base_command nope_commands then
        ret (Restricted base_command)
      else
        step <- (if Str.mem base_command confirm_commands
                 then ask_or_cancel (PromptRisk command) user_confirm
                 else ret (Next user_confirm)) ;;
        match step with
        | Return m => ret m
        | Next user_confirm =>
            step <- check_filters command base_command args user_confirm
                      secondary_filters ;;
            match step with
            | Return m => ret m
            | Next _ => run_command parts base_command
            end
        end
  end.

(** [any(cmd == command.split()[0] for cmd in cmds)] *)
Fixpoint any_is_first (command : string) (cmds : list string) : M bool :=
  match cmds with
  | [] => ret false
  | cmd :: more =>
      first <- item0 (Str.split command) ;;
      if String.eqb cmd first then ret true
      else any_is_first command more
  end.

(** [[f for f in filters if f["command"] == command.split()[0]]] *)
Fixpoint applicable (command : string) (filters : list Filter.t)
  : M (list Filter.t) :=
  match filters with
  | [] => ret []
  | f :: more =>
      first <- item0 (Str.split command) ;;
      rest <- applicable command more ;;
      ret (if String.eqb (Filter.command f) first then f :: rest else rest)
  end.

(** The [for filter in applicable_filters] loop of the handler. *)
Fixpoint api_check_filters (command : string) (user_confirm : option bool)
    (applicable_filters : list Filter.t) : M (Flow CommandResponse.t) :=
  match applicable_filters with
  | [] => ret (Next user_confirm)
  | filter :: more =>
      fires <- Filter.condition filter (tl (Str.split command)) ;;
      if fires then
        match user_confirm with
        | None => raise (http_400_filter (Filter.message filter))
        | Some _ =>
            if not_ user_confirm
            then ret (Return (CommandResponse.mk cancelled CancelledByUser))
            else api_check_filters command user_confirm more
        end
      else api_check_filters command user_confirm more
  end.

Definition api_execute_command_with (request : CommandRequest.t)
  : M CommandResponse.t :=
  let command := CommandRequest.command request in
  let user_confirm := CommandRequest.confirm request in
  denied <- any_is_first command nope_commands ;;
  if denied then
    first <- item0 (Str.split command) ;;
    ret (CommandResponse.mk blocked (Restricted first))
  else
    listed <- any_is_first command confirm_commands ;;
    step <- (if listed then
               match user_confirm with
               | None => raise http_400_confirm
               | Some _ =>
                   if not_ user_confirm
                   then ret (Return (CommandResponse.mk cancelled
                                       CancelledByUser))
                   else ret (Next user_confirm)
               end
             else ret (Next user_confirm)) ;;
    match step with
    | Return response => ret response
    | Next _ =>
        applicable_filters <- applicable command secondary_filters ;;
        step <- api_check_filters command user_confirm applicable_filters ;;
        match step with
        | Return response => ret response
        | Next _ =>
            result_message <- execute_command_with command user_confirm ;;
            ret (respond result_message)
        end
    end.

End Gateway.

(* ------------------------------------------------------------------ *)
(** * Policy tables                                                    *)
(* ------------------------------------------------------------------ *)

Definition nope_commands : list string :=
  [ "rm"; "chmod"; "chown"; "chgrp"; "mkfs"; "mount"; "umount"; "dd";
    "shutdown"; "reboot"; "poweroff"; "init"; "systemctl"; "journalctl";
    "user"; "passwd"; "sudo"; "su";
    "kill"; "dmesg"; "lsmod"; "modprobe"; "insmod"; "rmmod";
    "iptables"; "firewalld"; "ufw"; "nc";
    "crontab"; "at"; "swapon"; "swapoff";
    "lsusb"; "lspci"; "lsblk";
    "history" ].

Definition confirm_commands : list string :=
  [ "curl"; "wget";
    "pip"; "pip3"; "npm"; "yarn"; "apt-get"; "apt"; "yum"; "dnf";
    "pacman"; "brew";
    "sysctl"; "ulimit"; "update-alternatives"; "locale-gen";
    "nvm"; "rbenv"; "pyenv"; "sdk"; "snap";
    "ssh"; "scp"; "ftp"; "sftp"; "rsync";
    "docker"; "docker-compose"; "podman"; "kubectl"; "minikube";
    "service"; "launchctl";
    "fdisk"; "mkfs.ext4"; "mkfs.ntfs"; "resize2fs"; "e2fsck"; "fsck";
    "qemu"; "kvm";
    "loginctl"; "useradd"; "usermod"; "groupadd"; "groupmod";
    "netstat"; "ss"; "tcpdump"; "nmap";
    "mv"; "cp"; "ln -s";
    "export"; "source";
    "top"; "ps"; "df"; "du";
    "alias"; "reset"; "stty" ].

Definition pip_condition (args : list string) : M bool :=
  if existsb (Str.startswith "--trusted-host") args then ret true
  else is_within_virtualenv.

Definition npm_condition (args : list string) : M bool :=
  if negb (Str.mem "-g" args) then is_within_project_directory
  else ret false.

Definition docker_condition (args : list string) : M bool :=
  ret (Str.mem "run" args || Str.mem "build" args).

Definition ssh_condition (args : list string) : M bool :=
  match args with
  | [] => ret false
  | _ :: _ => ret (is_trusted_host (last args EmptyString))
  end.

Definition git_condition (args : list string) : M bool :=
  match args with
  | [] => ret false
  | _ :: _ => ret (is_allowed_remote (last args EmptyString))
  end.

Definition pip_filter : Filter.t :=
  Filter.mk "pip" (Some "install") pip_condition
    "Ensure that pip installations are from trusted sources or within a virtual environment.".

Definition npm_filter : Filter.t :=
  Filter.mk "npm" (Some "install") npm_condition
    "NPM installations are allowed only within the project directory and without global flags.".

Definition docker_filter : Filter.t :=
  Filter.mk "docker" None docker_condition
    "Docker operations are restricted to running or building images without modifying the host system.".

Definition ssh_filter : Filter.t :=
  Filter.mk "ssh" None ssh_condition
    "SSH connections are allowed only to predefined trusted hosts.".

Definition git_filter : Filter.t :=
  Filter.mk "git" (Some "push") git_condition
    "Git push operations are restricted to allowed remote repositories.".

Definition secondary_filters : list Filter.t :=
  [pip_filter; npm_filter; docker_filter; ssh_filter; git_filter].

(** The program: both functions over its own tables. *)
Definition execute_command : string -> option bool -> M Message :=
  execute_command_with nope_commands confirm_commands secondary_filters.

Definition api_execute_command : CommandRequest.t -> M CommandResponse.t :=
  api_execute_command_with nope_commands confirm_commands secondary_filters.

(* ------------------------------------------------------------------ *)
(** * Observations on a run                                            *)
(* ------------------------------------------------------------------ *)

Definition is_run (e : Event) : bool :=
  match e with EvRun _ => true | _ => false end.

Definition is_confirm (e : Event) : bool :=
  match e with EvConfirm _ _ => true | _ => false end.

(** The child processes: the executor's and the [ls] of the
    project-directory check. *)
Definition is_spawn (e : Event) : bool :=
  match e with
  | EvRun _ | EvCheckOutput _ => true
  | EvConfirm _ _ => false
  end.

(** The command lines handed to the executor. *)
Definition executed (t : list Event) : list Event := filter is_run t.

(** The child processes started. *)
Definition spawned (t : list Event) : list Event := filter is_spawn t.

(** The calls of [confirm]. *)
Definition solicitations (t : list Event) : list Event :=
  filter is_confirm t.

(** The messages that report on a started process. *)
Definition reports_run (m : Message) : bool :=
  match m with
  | ExecutedSuccessfully _ | ExecutionFailed _
  | CommandNotFound _ | UnexpectedError _ => true
  | NoCommandProvided | Restricted _ | CancelledByUser => false
  end.

(** The responses that report on a started process. *)
Definition reports_run_response (response : CommandResponse.t) : Prop :=
  reports_run (CommandResponse.message response) = true
  /\ (CommandResponse.status response = success
      \/ CommandResponse.status response = error).

(** The filter rationales a prompt text carries: the generic risk text
    carries none. *)
Definition rationales_of (p : Prompt) : list string :=
  match p with
  | PromptRisk _ => []
  | PromptFilter message _ => [message]
  end.

(** Some character of [s] satisfies [p]. *)
Fixpoint any_char (p : ascii -> bool) (s : string) : bool :=
  match s with
  | EmptyString => false
  | String c r => p c || any_char p r
  end.

Definition is_blank (c : ascii) : bool := Ascii.eqb c " ".

(** [' ' in s] *)
Definition has_blank (s : string) : bool := any_char is_blank s.

(** The characters with which a shell word can be made to hold a blank:
    the two quotes and the backslash. *)
Definition is_quoting (c : ascii) : bool :=
  Str.has_char c Shlex.quotes || Str.has_char c Shlex.escape.

(** [command] is written without quotes and without backslashes. *)
Definition unquoted (command : string) : bool :=
  negb (any_char is_quoting command).

(* ------------------------------------------------------------------ *)
(** * Properties of computations                                       *)
(* ------------------------------------------------------------------ *)

Section Properties.

Context {A : Type}.

(** [m] can return [a]. *)
Definition yields (m : M A) (a : A) : Prop :=
  exists env stdin, outcome (m env stdin) = Value a.

(** [m] emits no event that [p] selects. *)
Definition emits_no (p : Event -> bool) (m : M A) : Prop :=
  forall env stdin, filter p (trace (m env stdin)) = [].

(** [m] never calls [confirm] and never touches standard input: what it
    returns and what it does are those of a run on an empty input. *)
Definition unprompted (m : M A) : Prop :=
  forall env stdin,
    m env stdin = mkRun (outcome (m env [])) stdin (trace (m env []))
    /\ solicitations (trace (m env stdin)) = [].

(** [m] calls [confirm] at most [n] times. *)
Definition asks_at_most (n : nat) (m : M A) : Prop :=
  forall env stdin, length (solicitations (trace (m env stdin))) <= n.

(** When [m] has emitted an event that [p] selects, its outcome satisfies
    [Q]. *)
Definition emits_only_if (p : Event -> bool) (Q : Outcome A -> Prop)
    (m : M A) : Prop :=
  forall env stdin,
    filter p (trace (m env stdin)) = [] \/ Q (outcome (m env stdin)).

End Properties.

(** A predicate is quiet when it asks nothing, reads nothing and runs no
    command line. *)
Definition quiet (f : Filter.t) : Prop :=
  forall args,
    unprompted (Filter.condition f args)
    /\ emits_no is_run (Filter.condition f args).

(** The predicates of the filters on [base_command] emit no event that
    [p] selects. *)
Definition silent_on (p : Event -> bool) (base_command : string)
    (filters : list Filter.t) : Prop :=
  Forall (fun f => Filter.command f = base_command ->
                   forall args, emits_no p (Filter.condition f args))
         filters.

(** The outcome is the report on a started process. *)
Definition is_report (o : Outcome Message) : Prop :=
  exists m, o = Value m /\ reports_run m = true.

(** The outcome is not one of the messages that stop a command. *)
Definition not_stopped (o : Outcome Message) : Prop :=
  forall m, o = Value m -> reports_run m = true.

Definition is_report_response (o : Outcome CommandResponse.t) : Prop :=
  exists response, o = Value response /\ reports_run_response response.

(** The outcome is not a response with status [blocked] or
    [cancelled]. *)
Definition not_refused (o : Outcome CommandResponse.t) : Prop :=
  forall response,
    o = Value response ->
    CommandResponse.status response <> blocked
    /\ CommandResponse.status response <> cancelled.

(* ------------------------------------------------------------------ *)
(** * Sample inputs                                                    *)
(* ------------------------------------------------------------------ *)

(** An ambient context for the examples: no virtual environment, a
    project directory, an executor that succeeds. *)
Definition project_env : Env :=
  {| has_real_prefix := false;
     base_prefix := Some "/usr";
     prefix := "/usr";
     ls := inr "README.md package.json src";
     run := fun _ => Completed "done" |}.

(** The same with a working directory that cannot be listed. *)
Definition unreadable_env : Env :=
  {| has_real_prefix := false;
     base_prefix := Some "/usr";
     prefix := "/usr";
     ls := inl CalledProcessError;
     run := fun _ => Completed "done" |}.

Definition npm_install : string := "npm install left-pad".

Definition quoted_ln_s : string := Str.wrap Str.dquote "ln -s" ++ " a b".

Definition quoted_curl : string :=
  Str.wrap Str.dquote "curl" ++ " http://example.com".

Definition git_status : string := "git status origin".

(* ------------------------------------------------------------------ *)
(** * Further observations                                             *)
(* ------------------------------------------------------------------ *)

(** The two tests of [confirm] on a line of input. *)
Definition says_yes (line : string) : bool :=
  Str.mem (Str.lower line) ["y"; "yes"].

Definition says_no (line : string) : bool :=
  Str.mem (Str.lower line) ["n"; "no"].

(** [confirm] takes [line] for an answer. *)
Definition recognized (line : string) : bool :=
  says_yes line || says_no line.

(** The lines of standard input a trace accounts for. *)
Definition lines_read (t : list Event) : list string :=
  flat_map (fun e => match e with
                     | EvConfirm _ read => read
                     | _ => []
                     end) t.

Section MoreProperties.

Context {A : Type}.

(** [m] takes what it reads from the front of standard input, and every
    line it takes is recorded in a [confirm] event. *)
Definition conserves (m : M A) : Prop :=
  forall env stdin,
    stdin = lines_read (trace (m env stdin)) ++ stdin_left (m env stdin).

(** [m] reads nothing, asks nothing and runs no command line. *)
Definition inert (m : M A) : Prop :=
  unprompted m /\ emits_no is_run m.

(** The events of [m] that [p] selects satisfy [S]. *)
Definition selected (p : Event -> bool) (S : list Event -> Prop)
    (m : M A) : Prop :=
  forall env stdin, S (filter p (trace (m env stdin))).

End MoreProperties.

(** The executor calls a submission of [command] may make: none, or one
    on the tokens of [shlex.split], the first of which is not in the
    deny list. *)
Definition tokens_once (nope : list string) (command : string)
    (t : list Event) : Prop :=
  t = []
  \/ exists base_command args,
       Shlex.split command = Some (base_command :: args)
       /\ ~ In base_command nope
       /\ t = [EvRun (base_command :: args)].

(** The predicate of [f] answers without an effect and without an
    exception. *)
Definition decides (f : Filter.t) : Prop :=
  forall args env stdin,
    exists b, Filter.condition f args env stdin = mkRun (Value b) stdin [].

(** The arguments are those of a [git push] whose last argument is an
    allowed remote. *)
Definition git_push_to_allowed (args : list string) : bool :=
  match args with
  | [] => false
  | a :: _ => String.eqb a "push" && is_allowed_remote (last args EmptyString)
  end.

Section OutcomeProperties.

Context {A : Type}.

(** Every value [m] returns satisfies [Q] in the context of the run. *)
Definition returns (Q : Env -> A -> Prop) (m : M A) : Prop :=
  forall env stdin a, outcome (m env stdin) = Value a -> Q env a.

(** Every exception that leaves [m] satisfies [E] in the context of the
    run. *)
Definition raises_only (E : Env -> Exn -> Prop) (m : M A) : Prop :=
  forall env stdin e, outcome (m env stdin) = Raise e -> E env e.

End OutcomeProperties.

(** The status of a response fits its message. *)
Definition agrees (response : CommandResponse.t) : bool :=
  match CommandResponse.status response,
        CommandResponse.message response with
  | success, ExecutedSuccessfully _ => true
  | cancelled, CancelledByUser => true
  | blocked, Restricted _ => true
  | error, (NoCommandProvided | Restricted _ | ExecutionFailed _
            | CommandNotFound _ | UnexpectedError _) => true
  | _, _ => false
  end.

(** What [execute_command] can return for [command]: a message that
    stops the command, or the report on the run of its tokens. *)
Definition stop_or_report (command : string) (env : Env) (m : Message)
  : Prop :=
  reports_run m = false
  \/ exists base_command args,
       Shlex.split command = Some (base_command :: args)
       /\ m = report base_command (run env (base_command :: args)).

(** The exceptions that can leave [execute_command]. *)
Definition execute_exception (user_confirm : option bool) (env : Env)
    (e : Exn) : Prop :=
  e = ValueError
  \/ (e = EOFError /\ user_confirm = None)
  \/ ls env = inl e.

(** The exceptions that can leave the filter loop and the shared
    confirmation block. *)
Definition gate_exception (user_confirm : option bool) (env : Env)
    (e : Exn) : Prop :=
  (e = EOFError /\ user_confirm = None) \/ ls env = inl e.

(** The predicate of [f] raises nothing but what the listing of the
    working directory raised. *)
Definition raises_listing_only (f : Filter.t) : Prop :=
  forall args,
    raises_only (fun env e => ls env = inl e) (Filter.condition f args).

(** A character both tokenizers treat alike: no quote, no backslash, and
    white space only of the kind [shlex] splits on too. *)
Definition plain_char (c : ascii) : bool :=
  negb (is_quoting c)
  && (Str.has_char c Shlex.whitespace || negb (Str.isspace c)).

(** [command] is made of such characters. *)
Definition plain (command : string) : bool :=
  negb (any_char (fun c => negb (plain_char c)) command).

(** The run asked nothing and left standard input as it was. *)
Definition calm {A} (r : Run A) (stdin : list string) : Prop :=
  solicitations (trace r) = [] /\ stdin_left r = stdin.

(** The arguments for which the NPM filter lists the working directory:
    no subcommand or the subcommand "install", and no "-g". *)
Definition npm_lists_directory (args : list string) : bool :=
  match args with
  | [] => true
  | a :: _ => String.eqb a "install"
  end && negb (Str.mem "-g" args).

(* ------------------------------------------------------------------ *)
(** * The command-line interface                                       *)
(* ------------------------------------------------------------------ *)

(** [s.lstrip()], [s.rstrip()] and [s.strip()] *)
Fixpoint lstrip (s : string) : string :=
  match s with
  | EmptyString => EmptyString
  | String c r => if Str.isspace c then lstrip r else s
  end.

Fixpoint rstrip (s : string) : string :=
  match s with
  | EmptyString => EmptyString
  | String c r =>
      let r' := rstrip r in
      if Str.isspace c && String.eqb r' EmptyString then EmptyString
      else String c r'
  end.

Definition strip (s : string) : string := rstrip (lstrip s).

(** What [cli_interface] prints:
    - [Banner]: "=== Command Execution Interface ==="
    - [Hint]: "Type 'exit' to quit."
    - [Exiting]: "Exiting CLI."
    - [Result m]: the message [execute_command] returned
    - [Unexpected e]: "An unexpected error occurred: {e}" *)
Inductive Printed :=
| Banner
| Hint
| Exiting
| Result (m : Message)
| Unexpected (e : Exn).

(** What a session does: [CliInput line] is one call of
    [input("Enter command: ")], with the line it read or [None] at the
    end of standard input; [CliDoes e] is an action of
    [execute_command]. *)
Inductive CliEvent :=
| CliInput (line : option string)
| CliPrint (p : Printed)
| CliDoes (e : Event).

(** The line ends the session. *)
Definition is_sentinel (line : string) : bool :=
  Str.mem (Str.lower (strip line)) ["exit"; "quit"].

(** The line is skipped. *)
Definition is_blank_line (line : string) : bool :=
  String.eqb (strip line) EmptyString.

(** The [while True] loop of [cli_interface], cut after [fuel]
    iterations: the trace, and the input left when the loop was left by
    [break], [None] when it was still running.  [world n] is the ambient
    context at the [n]-th iteration from here.  An exception of the loop
    body, the [EOFError] of [input] included, is caught by [except
    Exception], printed, and the loop goes on.  The [KeyboardInterrupt]
    branch needs a signal, which standard input cannot bring about. *)
Fixpoint cli_loop (fuel : nat) (world : nat -> Env) (stdin : list string)
  : list CliEvent * option (list string) :=
  match fuel with
  | O => ([], None)
  | S fuel' =>
      let later := fun n => world (S n) in
      match stdin with
      | [] =>
          let '(t, rest) := cli_loop fuel' later [] in
          (CliInput None :: CliPrint (Unexpected EOFError) :: t, rest)
      | line :: more =>
          let user_input := strip line in
          if Str.mem (Str.lower user_input) ["exit"; "quit"] then
            ([CliInput (Some line); CliPrint Exiting], Some more)
          else if String.eqb user_input EmptyString then
            let '(t, rest) := cli_loop fuel' later more in
            (CliInput (Some line) :: t, rest)
          else
            let r := execute_command user_input None (world O) more in
            let printed := match outcome r with
                           | Value result => Result result
                           | Raise e => Unexpected e
                           end in
            let '(t, rest) := cli_loop fuel' later (stdin_left r) in
            (CliInput (Some line) :: map CliDoes (trace r)
               ++ CliPrint printed :: t, rest)
      end
  end.

Definition cli_interface (fuel : nat) (world : nat -> Env)
    (stdin : list string) : list CliEvent * option (list string) :=
  let '(t, rest) := cli_loop fuel world stdin in
  (CliPrint Banner :: CliPrint Hint :: t, rest).

(** The trace of [n] iterations at the end of standard input. *)
Fixpoint eof_iterations (n : nat) : list CliEvent :=
  match n with
  | O => []
  | S n' => CliInput None :: CliPrint (Unexpected EOFError)
            :: eof_iterations n'
  end.

(* ------------------------------------------------------------------ *)
(** * The tokenizers on examples                                       *)
(* ------------------------------------------------------------------ *)

Example shlex_plain :
  Shlex.split "pip install  --trusted-host pypi.org requests"
  = Some ["pip"; "install"; "--trusted-host"; "pypi.org"; "requests"].
Proof. reflexivity. Qed.

Example shlex_quoted_word :
  Shlex.split (Str.wrap Str.dquote "ln -s" ++ " a 'b c' d\ e "
               ++ Str.wrap Str.dquote EmptyString)
  = Some ["ln -s"; "a"; "b c"; "d e"; EmptyString].
Proof. reflexivity. Qed.

Example shlex_open_quote : Shlex.split "echo 'abc" = None.
Proof. reflexivity. Qed.

Example shlex_blank : Shlex.split "   " = Some [].
Proof. reflexivity. Qed.

Example split_plain :
  Str.split "  git  status origin " = ["git"; "status"; "origin"].
Proof. reflexivity. Qed.

Example split_keeps_quotes :
  Str.split (Str.wrap Str.dquote "curl" ++ " http://example.com")
  = [Str.wrap Str.dquote "curl"; "http://example.com"].
Proof. reflexivity. Qed.

(* ------------------------------------------------------------------ *)
(** * Membership and the monad                                         *)
(* ------------------------------------------------------------------ *)

Lemma mem_In (x : string) (xs : list string) :
  Str.mem x xs = true <-> In x xs.
Proof.
  unfold Str.mem. rewrite existsb_exists. split.
  - intros [y [Hy Heq]]. apply String.eqb_eq in Heq. now subst.
  - intros H. exists x. split; [assumption | apply String.eqb_refl].
Qed.

Lemma mem_not_In (x : string) (xs : list string) :
  Str.mem x xs = false <-> ~ In x xs.
Proof.
  rewrite <- mem_In. destruct (Str.mem x xs); split; congruence.
Qed.

Lemma bind_ret {A B} (a : A) (k : A -> M B) env stdin :
  bind (ret a) k env stdin = k a env stdin.
Proof. unfold bind, ret. simpl. now destruct (k a env stdin). Qed.

Lemma bind_raise {A B} (e : Exn) (k : A -> M B) env stdin :
  bind (raise e) k env stdin = mkRun (Raise e) stdin [].
Proof. reflexivity. Qed.

Lemma bind_value {A B} (m : M A) (k : A -> M B) a t env stdin stdin' :
  m env stdin = mkRun (Value a) stdin' t ->
  bind m k env stdin
  = mkRun (outcome (k a env stdin')) (stdin_left (k a env stdin'))
      (t ++ trace (k a env stdin')).
Proof. intros H. unfold bind. now rewrite H. Qed.

Lemma yields_bind {A B} (m : M A) (k : A -> M B) (b : B) :
  yields (bind m k) b -> exists a, yields m a /\ yields (k a) b.
Proof.
  intros [env [stdin H]]. unfold bind in H.
  destruct (outcome (m env stdin)) as [a|e] eqn:E; [|discriminate].
  exists a. split; [now exists env, stdin|].
  now exists env, (stdin_left (m env stdin)).
Qed.

Lemma yields_ret {A} (a b : A) : yields (ret a) b -> a = b.
Proof. intros [env [stdin H]]. simpl in H. congruence. Qed.

Lemma any_is_first_split command first rest cmds env stdin :
  Str.split command = first :: rest ->
  any_is_first command cmds env stdin
  = mkRun (Value (Str.mem first cmds)) stdin [].
Proof.
  intros Hsplit. induction cmds as [|cmd more IH]; [reflexivity|].
  cbn [any_is_first]. rewrite Hsplit. cbn [item0]. rewrite bind_ret.
  cbn [Str.mem existsb]. rewrite (String.eqb_sym first cmd).
  destruct (String.eqb cmd first); [reflexivity | exact IH].
Qed.

(* ------------------------------------------------------------------ *)
(** * Deny precedence                                                  *)
(* ------------------------------------------------------------------ *)

Section Deny.

Variables nope confirm_list : list string.
Variable filters : list Filter.t.

Lemma execute_denied command base_command args user_confirm env stdin :
  Shlex.split command = Some (base_command :: args) ->
  In base_command nope ->
  execute_command_with nope confirm_list filters command user_confirm
    env stdin
  = mkRun (Value (Restricted base_command)) stdin [].
Proof.
  intros Hsplit Hin. unfold execute_command_with, shlex_split.
  rewrite Hsplit, bind_ret. apply mem_In in Hin. now rewrite Hin.
Qed.

Lemma api_denied command first rest user_confirm env stdin :
  Str.split command = first :: rest ->
  In first nope ->
  api_execute_command_with nope confirm_list filters
    (CommandRequest.mk command user_confirm) env stdin
  = mkRun (Value (CommandResponse.mk blocked (Restricted first))) stdin [].
Proof.
  intros Hsplit Hin. unfold api_execute_command_with.
  cbn [CommandRequest.command CommandRequest.confirm].
  unfold bind at 1. rewrite (any_is_first_split _ _ _ _ _ _ Hsplit).
  apply mem_In in Hin. rewrite Hin. cbn [outcome stdin_left trace].
  rewrite Hsplit. reflexivity.
Qed.

End Deny.

(** C1.  Whatever the tables hold, a command whose first token is in the
    deny list is refused: [execute_command] returns the "restricted"
    message and the handler answers [blocked], for every argument list,
    every supplied confirmation and every ambient context, without
    asking, without evaluating a filter and without running anything.
    Since the confirm list and the filters are arbitrary here, this
    covers a name that is also listed there. *)
Theorem deny_takes_precedence :
  forall (nope confirm_list : list string) (filters : list Filter.t)
         (command first : string) (rest : list string)
         (user_confirm : option bool) (env : Env) (stdin : list string),
    In first nope ->
    (Shlex.split command = Some (first :: rest) ->
     execute_command_with nope confirm_list filters command user_confirm
       env stdin
     = mkRun (Value (Restricted first)) stdin [])
    /\
    (Str.split command = first :: rest ->
     api_execute_command_with nope confirm_list filters
       (CommandRequest.mk command user_confirm) env stdin
     = mkRun (Value (CommandResponse.mk blocked (Restricted first)))
         stdin []).
Proof.
  intros nope confirm_list filters command first rest user_confirm env
    stdin Hin.
  split; intros Hsplit.
  - now apply execute_denied with (args := rest).
  - now apply api_denied with (rest := rest).
Qed.

Lemma deny_takes_precedence_witness :
  execute_command "rm -rf /tmp/x" (Some true) project_env ["y"]
  = mkRun (Value (Restricted "rm")) ["y"] []
  /\ api_execute_command (CommandRequest.mk "rm -rf /tmp/x" (Some true))
       project_env ["y"]
     = mkRun (Value (CommandResponse.mk blocked (Restricted "rm")))
         ["y"] [].
Proof.
  assert (Hin : In "rm" nope_commands) by (simpl; tauto).
  split.
  - apply (proj1 (deny_takes_precedence nope_commands confirm_commands
                    secondary_filters "rm -rf /tmp/x" "rm"
                    ["-rf"; "/tmp/x"] (Some true) project_env ["y"] Hin)).
    reflexivity.
  - apply (proj2 (deny_takes_precedence nope_commands confirm_commands
                    secondary_filters "rm -rf /tmp/x" "rm"
                    ["-rf"; "/tmp/x"] (Some true) project_env ["y"] Hin)).
    reflexivity.
Defined.

(* ------------------------------------------------------------------ *)
(** * Commands no rule names                                           *)
(* ------------------------------------------------------------------ *)

Lemma run_command_report parts base_command env stdin :
  run_command parts base_command env stdin
  = mkRun (Value (report base_command (run env parts))) stdin [EvRun parts].
Proof.
  unfold run_command, report. now destruct (run env parts).
Qed.

Lemma check_filters_unrelated command base_command args user_confirm
      filters env stdin :
  (forall f, In f filters -> Filter.command f <> base_command) ->
  check_filters command base_command args user_confirm filters env stdin
  = mkRun (Value (Next user_confirm)) stdin [].
Proof.
  induction filters as [|f more IH]; intros Hno; [reflexivity|].
  cbn [check_filters].
  destruct (String.eqb (Filter.command f) base_command) eqn:E.
  - apply String.eqb_eq in E. exfalso. apply (Hno f); [now left | exact E].
  - apply IH. intros g Hg. apply Hno. now right.
Qed.

(** C7.  A command with at least one token, whose base name is in
    neither list and is the base command of no filter, is handed to the
    executor as tokenized: nothing is asked, standard input is left
    alone, and the result is the executor's report.  This holds for any
    tables and for every supplied confirmation, [False] included. *)
Theorem unlisted_command_runs :
  forall (nope confirm_list : list string) (filters : list Filter.t)
         (command base_command : string) (args : list string)
         (user_confirm : option bool) (env : Env) (stdin : list string),
    Shlex.split command = Some (base_command :: args) ->
    ~ In base_command nope ->
    ~ In base_command confirm_list ->
    (forall f, In f filters -> Filter.command f <> base_command) ->
    execute_command_with nope confirm_list filters command user_confirm
      env stdin
    = mkRun (Value (report base_command (run env (base_command :: args))))
        stdin [EvRun (base_command :: args)].
Proof.
  intros nope confirm_list filters command base_command args user_confirm
    env stdin Hsplit Hnope Hconfirm Hfilters.
  apply mem_not_In in Hnope. apply mem_not_In in Hconfirm.
  unfold execute_command_with, shlex_split.
  rewrite Hsplit, bind_ret, Hnope, Hconfirm, bind_ret.
  unfold bind at 1.
  rewrite (check_filters_unrelated _ _ _ _ _ _ _ Hfilters).
  cbn [outcome stdin_left trace]. rewrite run_command_report. reflexivity.
Qed.

Lemma unlisted_command_runs_witness :
  execute_command "echo hello" (Some false) project_env ["n"]
  = mkRun (Value (ExecutedSuccessfully "done")) ["n"]
      [EvRun ["echo"; "hello"]].
Proof.
  apply (unlisted_command_runs nope_commands confirm_commands
           secondary_filters "echo hello" "echo" ["hello"] (Some false)
           project_env ["n"]).
  - reflexivity.
  - apply mem_not_In. reflexivity.
  - apply mem_not_In. reflexivity.
  - intros f Hf E.
    assert (Hm : Str.mem "echo" (map Filter.command secondary_filters)
                 = true).
    { apply mem_In. rewrite <- E. now apply in_map. }
    discriminate Hm.
Defined.

(* ------------------------------------------------------------------ *)
(** * Rules for the properties of computations                         *)
(* ------------------------------------------------------------------ *)

Section Logic.

Context {A : Type}.

Lemma emits_no_ret p (a : A) : emits_no p (ret a).
Proof. intros env stdin. reflexivity. Qed.

Lemma emits_no_raise p (e : Exn) : emits_no p (@raise A e).
Proof. intros env stdin. reflexivity. Qed.

Lemma unprompted_ret (a : A) : unprompted (ret a).
Proof. intros env stdin. split; reflexivity. Qed.

Lemma unprompted_raise (e : Exn) : unprompted (@raise A e).
Proof. intros env stdin. split; reflexivity. Qed.

Lemma unprompted_asks (m : M A) (n : nat) :
  unprompted m -> asks_at_most n m.
Proof.
  intros H env stdin. destruct (H env stdin) as [_ E]. rewrite E.
  simpl. lia.
Qed.

Lemma emits_no_only_if p (Q : Outcome A -> Prop) (m : M A) :
  emits_no p m -> emits_only_if p Q m.
Proof. intros H env stdin. left. apply H. Qed.

Lemma always_only_if p (Q : Outcome A -> Prop) (m : M A) :
  (forall env stdin, Q (outcome (m env stdin))) -> emits_only_if p Q m.
Proof. intros H env stdin. right. apply H. Qed.

Lemma yields_raise (e : Exn) (a : A) : ~ yields (raise e) a.
Proof. intros [env [stdin H]]. discriminate H. Qed.

End Logic.

Section LogicBind.

Context {A B : Type}.
Variables (m : M A) (k : A -> M B).

Lemma bind_trace env stdin :
  exists t, trace (bind m k env stdin) = trace (m env stdin) ++ t
            /\ (t = []
                \/ exists a, outcome (m env stdin) = Value a
                   /\ t = trace (k a env (stdin_left (m env stdin)))
                   /\ outcome (bind m k env stdin)
                      = outcome (k a env (stdin_left (m env stdin)))).
Proof.
  unfold bind. destruct (outcome (m env stdin)) as [a|e] eqn:E.
  - eexists. split; [reflexivity|]. right. exists a. auto.
  - exists []. split; [simpl; now rewrite app_nil_r | now left].
Qed.

Lemma emits_no_bind p :
  emits_no p m ->
  (forall a, yields m a -> emits_no p (k a)) ->
  emits_no p (bind m k).
Proof.
  intros Hm Hk env stdin.
  destruct (bind_trace env stdin) as [t [E [->|[a [Ea [-> _]]]]]];
    rewrite E, filter_app, Hm.
  - reflexivity.
  - simpl. apply Hk. now exists env, stdin.
Qed.

Lemma emits_only_if_bind p (Q : Outcome B -> Prop) :
  emits_no p m ->
  (forall a, yields m a -> emits_only_if p Q (k a)) ->
  emits_only_if p Q (bind m k).
Proof.
  intros Hm Hk env stdin.
  destruct (bind_trace env stdin) as [t [E [->|[a [Ea [-> Eo]]]]]];
    rewrite E, filter_app, Hm; simpl.
  - now left.
  - rewrite Eo. apply Hk. now exists env, stdin.
Qed.

Lemma asks_at_most_bind (a b : nat) :
  asks_at_most a m ->
  (forall x, yields m x -> asks_at_most b (k x)) ->
  asks_at_most (a + b) (bind m k).
Proof.
  intros Hm Hk env stdin.
  destruct (bind_trace env stdin) as [t [E [->|[x [Ex [-> _]]]]]];
    rewrite E; unfold solicitations; rewrite filter_app, length_app;
    fold (solicitations (trace (m env stdin))); specialize (Hm env stdin).
  - simpl. lia.
  - assert (Hx : yields m x) by now exists env, stdin.
    specialize (Hk x Hx env (stdin_left (m env stdin))).
    unfold solicitations in *. lia.
Qed.

Lemma unprompted_bind :
  unprompted m ->
  (forall a, yields m a -> unprompted (k a)) ->
  unprompted (bind m k).
Proof.
  intros Hm Hk env stdin.
  destruct (Hm env stdin) as [E S]. destruct (Hm env []) as [E0 _].
  assert (L0 : stdin_left (m env []) = []) by now rewrite E0.
  assert (L : stdin_left (m env stdin) = stdin) by now rewrite E.
  assert (O : outcome (m env stdin) = outcome (m env [])) by now rewrite E.
  assert (T : trace (m env stdin) = trace (m env [])) by now rewrite E.
  unfold bind. rewrite L, L0, O, T.
  destruct (outcome (m env [])) as [a|e] eqn:Eo.
  - assert (Ha : yields m a) by now exists env, [].
    destruct (Hk a Ha env stdin) as [Ek Sk].
    rewrite Ek. cbn [outcome stdin_left trace]. split; [reflexivity|].
    unfold solicitations in *. rewrite filter_app.
    rewrite <- T, S. simpl.
    rewrite Ek in Sk. exact Sk.
  - cbn [outcome stdin_left trace]. split; [reflexivity|].
    now rewrite <- T.
Qed.

End LogicBind.

(** The rule for [result <- m; return f(result)]. *)
Lemma emits_only_if_map {A B} p (P : Outcome A -> Prop)
      (Q : Outcome B -> Prop) (m : M A) (f : A -> B) :
  emits_only_if p P m ->
  (forall a, P (Value a) -> Q (Value (f a))) ->
  (forall e, P (Raise e) -> Q (Raise e)) ->
  emits_only_if p Q (bind m (fun a => ret (f a))).
Proof.
  intros Hm Hv He env stdin. unfold bind.
  destruct (Hm env stdin) as [E|HP].
  - left. destruct (outcome (m env stdin)); cbn [trace ret];
      [now rewrite app_nil_r | assumption].
  - right. destruct (outcome (m env stdin)); cbn [outcome ret]; auto.
Qed.

(* ------------------------------------------------------------------ *)
(** * The building blocks                                              *)
(* ------------------------------------------------------------------ *)

Lemma unprompted_item0 xs : unprompted (item0 xs).
Proof. destruct xs; [apply unprompted_raise | apply unprompted_ret]. Qed.

Lemma unprompted_shlex_split command : unprompted (shlex_split command).
Proof.
  unfold shlex_split.
  destruct (Shlex.split command);
    [apply unprompted_ret | apply unprompted_raise].
Qed.

Lemma unprompted_run_command parts base_command :
  unprompted (run_command parts base_command).
Proof. intros env stdin. split; reflexivity. Qed.

Lemma report_reports base_command r :
  reports_run (report base_command r) = true.
Proof. now destruct r. Qed.

Lemma run_command_is_report parts base_command env stdin :
  is_report (outcome (run_command parts base_command env stdin)).
Proof. eexists. split; [reflexivity | apply report_reports]. Qed.

(** What [confirm] does with the lines it is given. *)
Lemma confirm_run prompt env stdin :
  confirm prompt env stdin
  = mkRun (fst (fst (read_answer stdin))) (snd (read_answer stdin))
      [EvConfirm prompt (snd (fst (read_answer stdin)))].
Proof.
  unfold confirm. now destruct (read_answer stdin) as [[o read] rest].
Qed.

(** The shared block, case by case. *)
Lemma ask_or_cancel_supplied prompt (b : bool) env stdin :
  ask_or_cancel prompt (Some b) env stdin
  = mkRun (Value (if b then Next (Some true) else Return CancelledByUser))
      stdin [].
Proof. now destruct b. Qed.

Lemma ask_or_cancel_unset prompt env stdin :
  ask_or_cancel prompt None env stdin
  = mkRun (match fst (fst (read_answer stdin)) with
           | Value true => Value (Next (Some true))
           | Value false => Value (Return CancelledByUser)
           | Raise e => Raise e
           end)
      (snd (read_answer stdin))
      [EvConfirm prompt (snd (fst (read_answer stdin)))].
Proof.
  unfold ask_or_cancel, bind, confirm.
  destruct (read_answer stdin) as [[[[|]|e] read] rest]; reflexivity.
Qed.

Lemma ask_or_cancel_next prompt user_confirm next :
  yields (ask_or_cancel prompt user_confirm) (Next next) ->
  next = Some true.
Proof.
  intros [env [stdin H]]. destruct user_confirm as [b|].
  - rewrite ask_or_cancel_supplied in H. destruct b; simpl in H; congruence.
  - rewrite ask_or_cancel_unset in H. simpl in H.
    destruct (fst (fst (read_answer stdin))) as [[|]|]; congruence.
Qed.

Lemma ask_or_cancel_approved prompt step :
  yields (ask_or_cancel prompt (Some true)) step -> step = Next (Some true).
Proof.
  intros [env [stdin H]]. rewrite ask_or_cancel_supplied in H.
  simpl in H. congruence.
Qed.

Lemma unprompted_ask_or_cancel prompt (b : bool) :
  unprompted (ask_or_cancel prompt (Some b)).
Proof.
  intros env stdin. rewrite !ask_or_cancel_supplied. split; reflexivity.
Qed.

Lemma asks_once_ask_or_cancel prompt user_confirm :
  asks_at_most 1 (ask_or_cancel prompt user_confirm).
Proof.
  intros env stdin. destruct user_confirm as [b|].
  - rewrite ask_or_cancel_supplied. simpl. lia.
  - rewrite ask_or_cancel_unset. simpl. lia.
Qed.

Lemma check_output_ls_run env stdin :
  check_output_ls env stdin
  = mkRun (match ls env with inl e => Raise e | inr text => Value text end)
      stdin [EvCheckOutput ["ls"]].
Proof. reflexivity. Qed.

(** With the decision [True] in hand the filter loop never returns from
    the function. *)
Lemma check_filters_approved command base_command args fs step :
  yields (check_filters command base_command args (Some true) fs) step ->
  step = Next (Some true).
Proof.
  induction fs as [|f more IH]; intros Hy.
  - now apply yields_ret in Hy.
  - cbn [check_filters] in Hy.
    destruct (String.eqb (Filter.command f) base_command); [|auto].
    destruct (_ && _ && _); [auto|].
    apply yields_bind in Hy. destruct Hy as [[|] [_ Hy]]; [|auto].
    apply yields_bind in Hy. destruct Hy as [asked [Ha Hy]].
    apply ask_or_cancel_approved in Ha. subst asked. auto.
Qed.

Lemma api_check_filters_approved command fs step :
  yields (api_check_filters command (Some true) fs) step ->
  step = Next (Some true).
Proof.
  induction fs as [|f more IH]; intros Hy.
  - now apply yields_ret in Hy.
  - cbn [api_check_filters not_] in Hy.
    apply yields_bind in Hy. destruct Hy as [[|] [_ Hy]]; auto.
Qed.

(** What [any(...)] has seen when it answers [False]. *)
Lemma any_is_first_false command cmds first rest :
  yields (any_is_first command cmds) false ->
  Str.split command = first :: rest ->
  ~ In first cmds.
Proof.
  intros [env [stdin H]] Hsplit.
  rewrite (any_is_first_split _ _ _ _ _ _ Hsplit) in H.
  apply mem_not_In. simpl in H. congruence.
Qed.

(* ------------------------------------------------------------------ *)
(** * Events the functions do not emit                                 *)
(* ------------------------------------------------------------------ *)

Section Processes.

(** A selection of events that leaves the calls of [confirm] out. *)
Variable p : Event -> bool.
Hypothesis p_confirm : forall prompt read, p (EvConfirm prompt read) = false.

Lemma emits_no_item0 xs : emits_no p (item0 xs).
Proof. destruct xs; [apply emits_no_raise | apply emits_no_ret]. Qed.

Lemma emits_no_shlex_split command : emits_no p (shlex_split command).
Proof.
  unfold shlex_split.
  destruct (Shlex.split command); [apply emits_no_ret | apply emits_no_raise].
Qed.

Lemma emits_no_ask_or_cancel prompt user_confirm :
  emits_no p (ask_or_cancel prompt user_confirm).
Proof.
  intros env stdin. destruct user_confirm as [b|].
  - now rewrite ask_or_cancel_supplied.
  - rewrite ask_or_cancel_unset. cbn [trace filter]. now rewrite p_confirm.
Qed.

Lemma emits_no_check_filters command base_command args user_confirm fs :
  silent_on p base_command fs ->
  emits_no p (check_filters command base_command args user_confirm fs).
Proof.
  intros Hq. revert user_confirm.
  induction Hq as [|f more Hf Hmore IH]; intros user_confirm;
    [apply emits_no_ret|].
  cbn [check_filters].
  destruct (String.eqb (Filter.command f) base_command) eqn:E; [|apply IH].
  apply String.eqb_eq in E.
  destruct (_ && _ && _); [apply IH|].
  apply emits_no_bind; [now apply Hf|].
  intros [|] _; [|apply IH].
  apply emits_no_bind; [apply emits_no_ask_or_cancel|].
  intros [m|next] _; [apply emits_no_ret | apply IH].
Qed.

Lemma emits_no_any_is_first command cmds :
  emits_no p (any_is_first command cmds).
Proof.
  induction cmds as [|cmd more IH]; [apply emits_no_ret|].
  cbn [any_is_first]. apply emits_no_bind; [apply emits_no_item0|].
  intros first _.
  destruct (String.eqb cmd first); [apply emits_no_ret | apply IH].
Qed.

Lemma emits_no_applicable command fs : emits_no p (applicable command fs).
Proof.
  induction fs as [|f more IH]; [apply emits_no_ret|].
  cbn [applicable]. apply emits_no_bind; [apply emits_no_item0|].
  intros first _. apply emits_no_bind; [apply IH|].
  intros rest _. apply emits_no_ret.
Qed.

(** The filters the handler picks are filters on the first word. *)
Lemma applicable_silent command fs picked :
  (forall first rest, Str.split command = first :: rest ->
                      silent_on p first fs) ->
  yields (applicable command fs) picked ->
  Forall (fun f => forall args, emits_no p (Filter.condition f args)) picked.
Proof.
  revert picked. induction fs as [|f more IH]; intros picked Hq Hy.
  - apply yields_ret in Hy. subst. constructor.
  - cbn [applicable] in Hy.
    apply yields_bind in Hy. destruct Hy as [first [Hfirst Hy]].
    apply yields_bind in Hy. destruct Hy as [rest [Hrest Hy]].
    apply yields_ret in Hy. subst picked.
    destruct (Str.split command) as [|w ws] eqn:Hs;
      [now apply yields_raise in Hfirst|].
    apply yields_ret in Hfirst. subst w.
    specialize (Hq first ws eq_refl).
    assert (Hmore : Forall (fun f => forall args,
                              emits_no p (Filter.condition f args)) rest).
    { apply IH; [|exact Hrest]. intros first' rest' E.
      injection E as <- <-. now apply Forall_inv_tail in Hq. }
    destruct (String.eqb (Filter.command f) first) eqn:E; [|exact Hmore].
    apply String.eqb_eq in E. constructor; [|exact Hmore].
    apply Forall_inv in Hq. now apply Hq.
Qed.

Lemma emits_no_api_check_filters command user_confirm fs :
  Forall (fun f => forall args, emits_no p (Filter.condition f args)) fs ->
  emits_no p (api_check_filters command user_confirm fs).
Proof.
  intros Hq. induction Hq as [|f more Hf Hmore IH]; [apply emits_no_ret|].
  cbn [api_check_filters]. apply emits_no_bind; [apply Hf|].
  intros [|] _; [|apply IH].
  destruct user_confirm as [b|]; [|apply emits_no_raise].
  destruct (not_ (Some b)); [apply emits_no_ret | apply IH].
Qed.

End Processes.

(* ------------------------------------------------------------------ *)
(** * The predicates of the program's filters                          *)
(* ------------------------------------------------------------------ *)

Lemma unprompted_project_directory : unprompted is_within_project_directory.
Proof.
  unfold is_within_project_directory. apply unprompted_bind.
  - intros env stdin. split; reflexivity.
  - intros text _. apply unprompted_ret.
Qed.

Lemma project_directory_runs_nothing :
  emits_no is_run is_within_project_directory.
Proof.
  unfold is_within_project_directory. apply emits_no_bind.
  - intros env stdin. reflexivity.
  - intros text _. apply emits_no_ret.
Qed.

Lemma quiet_pip : quiet pip_filter.
Proof.
  intros args. cbn [Filter.condition pip_filter]. unfold pip_condition.
  destruct (existsb _ args).
  - split; [apply unprompted_ret | apply emits_no_ret].
  - split; intros env stdin; [split|]; reflexivity.
Qed.

Lemma quiet_npm : quiet npm_filter.
Proof.
  intros args. cbn [Filter.condition npm_filter]. unfold npm_condition.
  destruct (negb _).
  - split; [apply unprompted_project_directory
           | apply project_directory_runs_nothing].
  - split; [apply unprompted_ret | apply emits_no_ret].
Qed.

Lemma quiet_docker : quiet docker_filter.
Proof.
  intros args. split; [apply unprompted_ret | apply emits_no_ret].
Qed.

Lemma quiet_ssh : quiet ssh_filter.
Proof.
  intros args. cbn [Filter.condition ssh_filter]. unfold ssh_condition.
  destruct args; split; solve [apply unprompted_ret | apply emits_no_ret].
Qed.

Lemma quiet_git : quiet git_filter.
Proof.
  intros args. cbn [Filter.condition git_filter]. unfold git_condition.
  destruct args; split; solve [apply unprompted_ret | apply emits_no_ret].
Qed.

Lemma quiet_secondary_filters : Forall quiet secondary_filters.
Proof.
  unfold secondary_filters.
  repeat (apply Forall_cons || apply Forall_nil);
    [apply quiet_pip | apply quiet_npm | apply quiet_docker
    | apply quiet_ssh | apply quiet_git].
Qed.

Lemma quiet_silent_on base_command fs :
  Forall quiet fs -> silent_on is_run base_command fs.
Proof.
  intros H. unfold silent_on. apply (Forall_impl _ (P := quiet)); [|exact H].
  intros f Hf _ args. apply Hf.
Qed.

(** Only the NPM predicate starts a process of its own. *)
Lemma secondary_filters_spawn_nothing base_command :
  base_command <> "npm" -> silent_on is_spawn base_command secondary_filters.
Proof.
  intros Hbase. unfold silent_on, secondary_filters.
  repeat (apply Forall_cons || apply Forall_nil); intros Hc args;
    cbn [Filter.condition Filter.command pip_filter npm_filter
         docker_filter ssh_filter git_filter] in *.
  - unfold pip_condition. destruct (existsb _ args);
      [apply emits_no_ret | intros env stdin; reflexivity].
  - now contradiction Hbase.
  - apply emits_no_ret.
  - unfold ssh_condition. destruct args; apply emits_no_ret.
  - unfold git_condition. destruct args; apply emits_no_ret.
Qed.

(* ------------------------------------------------------------------ *)
(** * The filter loop and [execute_command]                            *)
(* ------------------------------------------------------------------ *)

Section FilterLoop.

Variables (command base_command : string) (args : list string).

Lemma unprompted_check_filters (b : bool) fs :
  Forall quiet fs ->
  unprompted (check_filters command base_command args (Some b) fs).
Proof.
  intros Hq. revert b.
  induction Hq as [|f more Hf Hmore IH]; intros b; [apply unprompted_ret|].
  cbn [check_filters].
  destruct (String.eqb (Filter.command f) base_command); [|apply IH].
  destruct (_ && _ && _); [apply IH|].
  apply unprompted_bind; [apply Hf|].
  intros [|] _; [|apply IH].
  apply unprompted_bind; [apply unprompted_ask_or_cancel|].
  intros [m|next] Hy; [apply unprompted_ret|].
  apply ask_or_cancel_next in Hy. subst next. apply IH.
Qed.

Lemma asks_once_check_filters user_confirm fs :
  Forall quiet fs ->
  asks_at_most 1 (check_filters command base_command args user_confirm fs).
Proof.
  intros Hq. destruct user_confirm as [b|];
    [now apply unprompted_asks, unprompted_check_filters|].
  induction Hq as [|f more Hf Hmore IH];
    [apply unprompted_asks, unprompted_ret|].
  cbn [check_filters].
  destruct (String.eqb (Filter.command f) base_command); [|apply IH].
  destruct (_ && _ && _); [apply IH|].
  apply (asks_at_most_bind _ _ 0 1); [apply unprompted_asks, Hf|].
  intros [|] _; [|apply IH].
  apply (asks_at_most_bind _ _ 1 0); [apply asks_once_ask_or_cancel|].
  intros [m|next] Hy; [apply unprompted_asks, unprompted_ret|].
  apply ask_or_cancel_next in Hy. subst next.
  now apply unprompted_asks, unprompted_check_filters.
Qed.

End FilterLoop.

Section Execute.

Variables nope confirm_list : list string.
Variable filters : list Filter.t.

(** The executor is reached at the end of the function only: a run in
    which a selected event occurred, the predicates emitting none,
    returns the executor's report. *)
Lemma execute_emits_only_if p command user_confirm :
  (forall prompt read, p (EvConfirm prompt read) = false) ->
  (forall base_command, silent_on p base_command filters) ->
  emits_only_if p is_report
    (execute_command_with nope confirm_list filters command user_confirm).
Proof.
  intros p_confirm Hsilent. unfold execute_command_with.
  apply emits_only_if_bind; [now apply emits_no_shlex_split|].
  intros [|base args] _; [apply emits_no_only_if, emits_no_ret|].
  destruct (Str.mem base nope); [apply emits_no_only_if, emits_no_ret|].
  apply emits_only_if_bind.
  { destruct (Str.mem base confirm_list);
      [now apply emits_no_ask_or_cancel | apply emits_no_ret]. }
  intros [m|next] _; [apply emits_no_only_if, emits_no_ret|].
  apply emits_only_if_bind; [now apply emits_no_check_filters|].
  intros [m|next'] _; [apply emits_no_only_if, emits_no_ret|].
  apply always_only_if. intros env stdin. apply run_command_is_report.
Qed.

(** With the decision [True] the function never answers "cancelled". *)
Lemma execute_approved command m :
  yields (execute_command_with nope confirm_list filters command (Some true))
         m ->
  m <> CancelledByUser.
Proof.
  unfold execute_command_with. intros Hy.
  apply yields_bind in Hy. destruct Hy as [[|base args] [_ Hy]].
  { apply yields_ret in Hy. now subst m. }
  destruct (Str.mem base nope).
  { apply yields_ret in Hy. now subst m. }
  apply yields_bind in Hy. destruct Hy as [step [Hstep Hy]].
  assert (step = Next (Some true)) as ->.
  { destruct (Str.mem base confirm_list).
    - now apply ask_or_cancel_approved in Hstep.
    - now apply yields_ret in Hstep. }
  apply yields_bind in Hy. destruct Hy as [step' [Hstep' Hy]].
  apply check_filters_approved in Hstep'. subst step'.
  destruct Hy as [env [stdin Hy]]. cbn in Hy.
  injection Hy as <-. now destruct (run env (base :: args)).
Qed.

Hypothesis filters_quiet : Forall quiet filters.

(** With a supplied decision the function asks nothing. *)
Lemma execute_unprompted command (b : bool) :
  unprompted
    (execute_command_with nope confirm_list filters command (Some b)).
Proof.
  unfold execute_command_with.
  apply unprompted_bind; [apply unprompted_shlex_split|].
  intros [|base args] _; [apply unprompted_ret|].
  destruct (Str.mem base nope); [apply unprompted_ret|].
  apply unprompted_bind.
  { destruct (Str.mem base confirm_list);
      [apply unprompted_ask_or_cancel | apply unprompted_ret]. }
  intros [m|next] Hy; [apply unprompted_ret|].
  assert (Hn : exists b', next = Some b').
  { destruct (Str.mem base confirm_list).
    - apply ask_or_cancel_next in Hy. now exists true.
    - apply yields_ret in Hy. exists b. congruence. }
  destruct Hn as [b' ->].
  apply unprompted_bind; [now apply unprompted_check_filters|].
  intros [m|next'] _; [apply unprompted_ret|].
  apply unprompted_run_command.
Qed.

(** Whatever is supplied, the function asks at most once. *)
Lemma execute_asks_once command user_confirm :
  asks_at_most 1
    (execute_command_with nope confirm_list filters command user_confirm).
Proof.
  destruct user_confirm as [b|];
    [apply unprompted_asks, execute_unprompted|].
  unfold execute_command_with.
  apply (asks_at_most_bind _ _ 0 1);
    [apply unprompted_asks, unprompted_shlex_split|].
  intros [|base args] _; [apply unprompted_asks, unprompted_ret|].
  destruct (Str.mem base nope); [apply unprompted_asks, unprompted_ret|].
  destruct (Str.mem base confirm_list).
  - apply (asks_at_most_bind _ _ 1 0); [apply asks_once_ask_or_cancel|].
    intros [m|next] Hy; [apply unprompted_asks, unprompted_ret|].
    apply ask_or_cancel_next in Hy. subst next.
    apply unprompted_asks, unprompted_bind;
      [now apply unprompted_check_filters|].
    intros [m|next'] _; [apply unprompted_ret|].
    apply unprompted_run_command.
  - apply (asks_at_most_bind _ _ 0 1);
      [apply unprompted_asks, unprompted_ret|].
    intros [m|next] _; [apply unprompted_asks, unprompted_ret|].
    apply (asks_at_most_bind _ _ 1 0);
      [now apply asks_once_check_filters|].
    intros [m|next'] _; [apply unprompted_asks, unprompted_ret|].
    apply unprompted_asks, unprompted_run_command.
Qed.

End Execute.

(** On the program's tables: a run of [execute_command] in which any
    child process was started, the [ls] of the NPM predicate included,
    does not end with one of the messages that stop a command.  The NPM
    predicate is looked at only when the base command is "npm"; that
    name is in the confirm list, so the decision is [True] by then and
    the loop goes through to the executor. *)
Lemma execute_spawn command user_confirm :
  emits_only_if is_spawn not_stopped (execute_command command user_confirm).
Proof.
  assert (Hp : forall prompt read, is_spawn (EvConfirm prompt read) = false)
    by reflexivity.
  assert (Hrun : forall parts base,
             emits_only_if is_spawn not_stopped (run_command parts base)).
  { intros parts base. apply always_only_if. intros env stdin m Hm.
    cbn in Hm. injection Hm as <-. apply report_reports. }
  unfold execute_command, execute_command_with.
  apply emits_only_if_bind; [now apply emits_no_shlex_split|].
  intros [|base args] _; [apply emits_no_only_if, emits_no_ret|].
  destruct (Str.mem base nope_commands);
    [apply emits_no_only_if, emits_no_ret|].
  destruct (String.eqb base "npm") eqn:E.
  - apply String.eqb_eq in E. subst base.
    replace (Str.mem "npm" confirm_commands) with true by reflexivity.
    cbv iota.
    apply emits_only_if_bind; [now apply emits_no_ask_or_cancel|].
    intros [m|next] Hy; [apply emits_no_only_if, emits_no_ret|].
    apply ask_or_cancel_next in Hy. subst next.
    apply always_only_if. intros env stdin m Hm.
    assert (Hy : yields
                   (bind (check_filters command "npm" args (Some true)
                            secondary_filters)
                      (fun step =>
                         match step with
                         | Return m' => ret m'
                         | Next _ => run_command ("npm" :: args) "npm"
                         end)) m)
      by (exists env, stdin; exact Hm).
    apply yields_bind in Hy. destruct Hy as [step [Hstep Hy]].
    apply check_filters_approved in Hstep. subst step.
    destruct Hy as [env' [stdin' Hy]]. cbn in Hy.
    injection Hy as <-. apply report_reports.
  - apply String.eqb_neq in E.
    apply emits_only_if_bind.
    { destruct (Str.mem base confirm_commands);
        [now apply emits_no_ask_or_cancel | apply emits_no_ret]. }
    intros [m|next] _; [apply emits_no_only_if, emits_no_ret|].
    apply emits_only_if_bind.
    { apply emits_no_check_filters; [exact Hp|].
      now apply secondary_filters_spawn_nothing. }
    intros [m|next'] _; [apply emits_no_only_if, emits_no_ret | apply Hrun].
Qed.

(* ------------------------------------------------------------------ *)
(** * The request handler                                              *)
(* ------------------------------------------------------------------ *)

Section Handler.

Variables nope confirm_list : list string.
Variable filters : list Filter.t.

Lemma api_emits_only_if p request :
  (forall prompt read, p (EvConfirm prompt read) = false) ->
  (forall base_command, silent_on p base_command filters) ->
  emits_only_if p is_report_response
    (api_execute_command_with nope confirm_list filters request).
Proof.
  intros p_confirm Hsilent. unfold api_execute_command_with.
  apply emits_only_if_bind; [now apply emits_no_any_is_first|].
  intros [|] _.
  { apply emits_no_only_if, emits_no_bind; [now apply emits_no_item0|].
    intros first _. apply emits_no_ret. }
  apply emits_only_if_bind; [now apply emits_no_any_is_first|].
  intros listed _. apply emits_only_if_bind.
  { destruct listed; [|apply emits_no_ret].
    destruct (CommandRequest.confirm request) as [b|];
      [|apply emits_no_raise].
    destruct (not_ (Some b)); apply emits_no_ret. }
  intros [response|next] _; [apply emits_no_only_if, emits_no_ret|].
  apply emits_only_if_bind; [now apply emits_no_applicable|].
  intros picked Hpicked. apply emits_only_if_bind.
  { apply emits_no_api_check_filters.
    apply (applicable_silent p _ _ _ (fun first _ _ => Hsilent first)
             Hpicked). }
  intros [response|next'] _; [apply emits_no_only_if, emits_no_ret|].
  apply (emits_only_if_map p is_report).
  - now apply execute_emits_only_if.
  - intros m [m' [E Hm]]. injection E as <-.
    exists (respond m). split; [reflexivity|].
    unfold reports_run_response, respond.
    destruct m; try discriminate Hm; cbn; auto.
  - intros e [m' [E _]]. discriminate E.
Qed.

End Handler.

(** On the program's tables: a run of the handler in which any child
    process was started does not end with the status [blocked] or
    [cancelled]. *)
Lemma api_spawn request :
  emits_only_if is_spawn not_refused (api_execute_command request).
Proof.
  assert (Hp : forall prompt read, is_spawn (EvConfirm prompt read) = false)
    by reflexivity.
  assert (Hrespond : forall m, m <> CancelledByUser ->
             CommandResponse.status (respond m) <> blocked
             /\ CommandResponse.status (respond m) <> cancelled).
  { intros m Hm. unfold respond. destruct m; cbn; split; congruence. }
  unfold api_execute_command, api_execute_command_with.
  apply emits_only_if_bind; [now apply emits_no_any_is_first|].
  intros [|] _.
  { apply emits_no_only_if, emits_no_bind; [now apply emits_no_item0|].
    intros first _. apply emits_no_ret. }
  apply emits_only_if_bind; [now apply emits_no_any_is_first|].
  intros [|] Hlisted.
  - (* the first word is in the confirm list *)
    destruct (CommandRequest.confirm request) as [[|]|]; cbn [not_].
    + apply emits_only_if_bind; [apply emits_no_ret|].
      intros step Hstep. apply yields_ret in Hstep. subst step.
      apply always_only_if. intros env stdin response Hr.
      match type of Hr with
      | outcome (?m env stdin) = _ =>
          assert (Hy : yields m response) by (exists env, stdin; exact Hr)
      end.
      apply yields_bind in Hy. destruct Hy as [picked [_ Hy]].
      apply yields_bind in Hy. destruct Hy as [step [Hstep Hy]].
      apply api_check_filters_approved in Hstep. subst step.
      apply yields_bind in Hy. destruct Hy as [m [Hm Hy]].
      apply execute_approved in Hm. apply yields_ret in Hy. subst response.
      now apply Hrespond.
    + apply emits_no_only_if, emits_no_bind; [apply emits_no_ret|].
      intros step Hy. apply yields_ret in Hy. subst step. apply emits_no_ret.
    + apply emits_no_only_if, emits_no_bind; [apply emits_no_raise|].
      intros step Hy. now apply yields_raise in Hy.
  - (* it is not: it is not "npm", and no picked filter lists anything *)
    apply emits_only_if_bind; [apply emits_no_ret|].
    intros step Hstep. apply yields_ret in Hstep. subst step.
    apply emits_only_if_bind; [now apply emits_no_applicable|].
    intros picked Hpicked. apply emits_only_if_bind.
    { apply emits_no_api_check_filters.
      refine (applicable_silent is_spawn _ _ _ _ Hpicked).
      intros first rest Hs. apply secondary_filters_spawn_nothing.
      intros ->. apply (any_is_first_false _ _ _ _ Hlisted Hs).
      apply mem_In. reflexivity. }
    intros [response|next] _; [apply emits_no_only_if, emits_no_ret|].
    apply (emits_only_if_map is_spawn not_stopped).
    + apply execute_spawn.
    + intros m Hm response E. injection E as <-. apply Hrespond.
      intros ->. specialize (Hm _ eq_refl). discriminate Hm.
    + intros e _ response E. discriminate E.
Qed.

(** C2.  The executor is invoked only when the command is allowed.  A
    run of [execute_command] that returns the "restricted", "cancelled"
    or "no command" message ([reports_run m = false]) has started no
    child process at all, neither the command nor the [ls] of a
    predicate, and a run that raises has not reached the executor.  The
    same holds for the handler: a response with status [blocked] or
    [cancelled] comes without any child process, and a response that
    carries one of the three messages, or a raised exception (the HTTP
    400 included), comes without an executor call. *)
Theorem executor_only_when_allowed :
  forall (command : string) (user_confirm : option bool) (env : Env)
         (stdin : list string),
    let r := execute_command command user_confirm env stdin in
    let a := api_execute_command (CommandRequest.mk command user_confirm)
               env stdin in
    (forall m, outcome r = Value m -> reports_run m = false ->
               spawned (trace r) = [])
    /\ (forall e, outcome r = Raise e -> executed (trace r) = [])
    /\ (forall response,
          outcome a = Value response ->
          CommandResponse.status response = blocked
          \/ CommandResponse.status response = cancelled ->
          spawned (trace a) = [])
    /\ (forall response,
          outcome a = Value response ->
          reports_run (CommandResponse.message response) = false ->
          executed (trace a) = [])
    /\ (forall e, outcome a = Raise e -> executed (trace a) = []).
Proof.
  intros command user_confirm env stdin r a.
  assert (Hp : forall prompt read, is_run (EvConfirm prompt read) = false)
    by reflexivity.
  assert (Hq : forall base, silent_on is_run base secondary_filters)
    by (intros base; apply quiet_silent_on, quiet_secondary_filters).
  pose proof (execute_emits_only_if nope_commands confirm_commands
                secondary_filters is_run command user_confirm Hp Hq
                env stdin) as Hr.
  pose proof (api_emits_only_if nope_commands confirm_commands
                secondary_filters is_run
                (CommandRequest.mk command user_confirm) Hp Hq env stdin)
    as Ha.
  pose proof (execute_spawn command user_confirm env stdin) as Sr.
  pose proof (api_spawn (CommandRequest.mk command user_confirm) env stdin)
    as Sa.
  fold execute_command in Hr. fold api_execute_command in Ha.
  fold r in Hr, Sr. fold a in Ha, Sa.
  repeat split.
  - intros m Hm Hstop. destruct Sr as [E|Hns]; [exact E|].
    specialize (Hns m Hm). congruence.
  - intros e He. destruct Hr as [E|[m' [Hm' _]]]; [exact E | congruence].
  - intros response Hv Hstatus. destruct Sa as [E|Hnr]; [exact E|].
    destruct (Hnr response Hv). destruct Hstatus; contradiction.
  - intros response Hv Hstop.
    destruct Ha as [E|[resp' [Hv' [Hrun _]]]]; [exact E|].
    congruence.
  - intros e He. destruct Ha as [E|[resp' [Hv' _]]]; [exact E | congruence].
Qed.

Lemma executor_only_when_allowed_witness :
  spawned (trace (execute_command "curl https://example.com" None
                    project_env ["n"])) = []
  /\ spawned (trace (api_execute_command
                       (CommandRequest.mk "git push origin" (Some false))
                       project_env [])) = [].
Proof.
  split.
  - apply (proj1 (executor_only_when_allowed "curl https://example.com"
                    None project_env ["n"]) CancelledByUser);
      reflexivity.
  - apply (proj1 (proj2 (proj2 (executor_only_when_allowed
                                  "git push origin" (Some false)
                                  project_env [])))
             (CommandResponse.mk cancelled CancelledByUser)).
    + reflexivity.
    + right. reflexivity.
Defined.

(* ------------------------------------------------------------------ *)
(** * A supplied decision                                              *)
(* ------------------------------------------------------------------ *)

(** C10.  When [user_confirm] is an explicit boolean, [execute_command]
    never calls [confirm]: its trace holds no solicitation, standard
    input is handed back untouched, and the outcome and the trace are
    the same whatever standard input holds: they depend on the command,
    the boolean and the ambient context only. *)
Theorem supplied_decision_never_prompts :
  forall (command : string) (b : bool) (env : Env)
         (stdin stdin' : list string),
    let r := execute_command command (Some b) env stdin in
    solicitations (trace r) = []
    /\ stdin_left r = stdin
    /\ outcome r = outcome (execute_command command (Some b) env stdin')
    /\ trace r = trace (execute_command command (Some b) env stdin').
Proof.
  intros command b env stdin stdin' r.
  pose proof (execute_unprompted nope_commands confirm_commands
                secondary_filters quiet_secondary_filters command b)
    as H.
  fold execute_command in H.
  destruct (H env stdin) as [E S]. destruct (H env stdin') as [E' _].
  subst r. repeat split.
  - exact S.
  - now rewrite E.
  - now rewrite E, E'.
  - now rewrite E, E'.
Qed.

(* ------------------------------------------------------------------ *)
(** * One solicitation per submission                                  *)
(* ------------------------------------------------------------------ *)

(** The claim C8 as the specification words it fails on [npm_install]
    in a project directory: the base command is in the confirm list and
    the NPM filter's predicate holds, yet the one solicitation shows the
    generic risk text without the filter's rationale, and it is issued
    before the predicate is evaluated (the listing of the directory comes
    after it in the trace). *)
Lemma rationales_not_combined :
  Str.mem "npm" confirm_commands = true
  /\ In npm_filter secondary_filters
  /\ outcome (Filter.condition npm_filter ["install"; "left-pad"]
                project_env []) = Value true
  /\ trace (execute_command npm_install None project_env ["y"])
     = [ EvConfirm (PromptRisk npm_install) ["y"];
         EvCheckOutput ["ls"];
         EvRun ["npm"; "install"; "left-pad"] ]
  /\ ~ (forall prompt read,
          In (EvConfirm prompt read)
             (trace (execute_command npm_install None project_env ["y"])) ->
          In (Filter.message npm_filter) (rationales_of prompt)).
Proof.
  split; [reflexivity|]. split; [simpl; tauto|].
  split; [reflexivity|]. split; [reflexivity|].
  intros H. apply (H (PromptRisk npm_install) ["y"]). now left.
Qed.

(** C8, amended.  A submission solicits at most one confirmation,
    whatever the command and the supplied decision.  When the base
    command is in the confirm list and no decision is supplied, that one
    solicitation comes first, before any filter is evaluated, and shows
    the generic risk text for the command; an approval then stands for
    the whole submission, which goes on exactly as if [True] had been
    supplied (so no filter asks again), a rejection cancels it, and an
    exhausted input ends it with the exception of [input]. *)
Theorem one_solicitation_per_submission :
  forall (command : string) (env : Env) (stdin : list string),
    (forall user_confirm,
        length (solicitations
                  (trace (execute_command command user_confirm env stdin)))
        <= 1)
    /\
    (forall base_command args,
        Shlex.split command = Some (base_command :: args) ->
        ~ In base_command nope_commands ->
        In base_command confirm_commands ->
        let asked :=
          EvConfirm (PromptRisk command) (snd (fst (read_answer stdin))) in
        let rest := snd (read_answer stdin) in
        execute_command command None env stdin
        = match fst (fst (read_answer stdin)) with
          | Value true =>
              let r := execute_command command (Some true) env rest in
              mkRun (outcome r) (stdin_left r) (asked :: trace r)
          | Value false => mkRun (Value CancelledByUser) rest [asked]
          | Raise e => mkRun (Raise e) rest [asked]
          end).
Proof.
  intros command env stdin. split.
  - intros user_confirm.
    apply (execute_asks_once nope_commands confirm_commands
             secondary_filters quiet_secondary_filters).
  - intros base_command args Hsplit Hnope Hconfirm asked rest.
    apply mem_not_In in Hnope. apply mem_In in Hconfirm.
    unfold execute_command, execute_command_with, shlex_split.
    rewrite Hsplit, !bind_ret, Hnope, Hconfirm.
    unfold bind at 1. rewrite ask_or_cancel_unset.
    cbn [outcome stdin_left trace]. fold asked. fold rest.
    destruct (fst (fst (read_answer stdin))) as [[|]|e];
      [|reflexivity|reflexivity].
    rewrite (bind_value _ _ (Next (Some true)) [] env rest rest
               (ask_or_cancel_supplied _ true env rest)).
    reflexivity.
Qed.

Lemma one_solicitation_per_submission_witness :
  execute_command npm_install None project_env ["y"]
  = mkRun (outcome (execute_command npm_install (Some true) project_env []))
      (stdin_left (execute_command npm_install (Some true) project_env []))
      (EvConfirm (PromptRisk npm_install) ["y"]
       :: trace (execute_command npm_install (Some true) project_env [])).
Proof.
  apply (proj2 (one_solicitation_per_submission npm_install project_env
                  ["y"]) "npm" ["install"; "left-pad"]).
  - reflexivity.
  - apply mem_not_In. reflexivity.
  - apply mem_In. reflexivity.
Defined.

(* ------------------------------------------------------------------ *)
(** * Tokens and the blank                                             *)
(* ------------------------------------------------------------------ *)

Lemma any_char_snoc p s c :
  any_char p (s ++ String c EmptyString) = any_char p s || p c.
Proof.
  induction s as [|d r IH]; simpl.
  - now rewrite orb_false_r.
  - now rewrite IH, orb_assoc.
Qed.

Lemma blank_isspace c : Str.isspace c = false -> is_blank c = false.
Proof.
  intros H. unfold is_blank. destruct (Ascii.eqb c " ") eqn:E; [|reflexivity].
  apply Ascii.eqb_eq in E. subst c. discriminate H.
Qed.

Lemma blank_whitespace c :
  Str.has_char c Shlex.whitespace = false -> is_blank c = false.
Proof.
  intros H. unfold is_blank. destruct (Ascii.eqb c " ") eqn:E; [|reflexivity].
  apply Ascii.eqb_eq in E. subst c. discriminate H.
Qed.

Lemma split_from_no_blank s :
  forall cur, has_blank cur = false ->
              Forall (fun t => has_blank t = false) (Str.split_from cur s).
Proof.
  induction s as [|c r IH]; intros cur Hcur; cbn [Str.split_from].
  - destruct (String.eqb cur EmptyString); repeat constructor; assumption.
  - destruct (Str.isspace c) eqn:Ec.
    + destruct (String.eqb cur EmptyString).
      * now apply IH.
      * constructor; [assumption | now apply IH].
    + apply IH. unfold has_blank in *. rewrite any_char_snoc, Hcur.
      now rewrite (blank_isspace c Ec).
Qed.

Lemma tokens_no_blank s :
  forall st token quoted parts,
    any_char is_quoting s = false ->
    st = Shlex.InSpace \/ st = Shlex.InWord ->
    has_blank token = false ->
    Shlex.tokens st token quoted s = Some parts ->
    Forall (fun t => has_blank t = false) parts.
Proof.
  induction s as [|c r IH]; intros st token quoted parts Hs Hst Htok H.
  - assert (Heof : parts = Shlex.at_eof token quoted)
      by (destruct Hst; subst st; simpl in H; congruence).
    subst parts. unfold Shlex.at_eof.
    destruct (negb quoted && String.eqb token EmptyString);
      repeat constructor; assumption.
  - cbn [any_char] in Hs. apply orb_false_iff in Hs.
    destruct Hs as [Hc Hr]. apply orb_false_iff in Hc.
    destruct Hc as [Hq He].
    assert (Hemit : forall tail,
               option_map (cons token)
                 (Shlex.tokens Shlex.InSpace EmptyString false r) = Some tail ->
               Forall (fun t => has_blank t = false) tail).
    { intros tail Ht.
      destruct (Shlex.tokens Shlex.InSpace EmptyString false r) as [ps|] eqn:Er;
        [|discriminate].
      simpl in Ht. injection Ht as <-.
      constructor; [assumption|].
      apply (IH Shlex.InSpace EmptyString false); auto. }
    destruct Hst; subst st; cbn [Shlex.tokens] in H;
      rewrite ?Hq, ?He in H;
      destruct (Str.has_char c Shlex.whitespace) eqn:Ew.
    + destruct (negb (String.eqb token EmptyString) || quoted);
        [now apply Hemit | apply (IH Shlex.InSpace token quoted); auto].
    + apply (IH Shlex.InWord (String c EmptyString) quoted); auto.
      unfold has_blank. simpl.
      now rewrite (blank_whitespace c Ew).
    + destruct (negb (String.eqb token EmptyString) || quoted);
        [now apply Hemit | apply (IH Shlex.InSpace token quoted); auto].
    + apply (IH Shlex.InWord (Shlex.snoc token c) quoted); auto.
      unfold has_blank, Shlex.snoc in *. rewrite any_char_snoc, Htok.
      now rewrite (blank_whitespace c Ew).
Qed.

(** The claim C9 as the specification words it fails on [quoted_ln_s]:
    the tokenizer of [execute_command] is quote-aware, the first token it
    produces is the string "ln -s", and the confirm-list entry makes the
    command ask for confirmation. *)
Lemma ln_s_entry_matches_quoted_word :
  Shlex.split quoted_ln_s = Some ["ln -s"; "a"; "b"]
  /\ In "ln -s" confirm_commands
  /\ execute_command quoted_ln_s None project_env ["n"]
     = mkRun (Value CancelledByUser) []
         [EvConfirm (PromptRisk quoted_ln_s) ["n"]].
Proof.
  split; [reflexivity|]. split; [|reflexivity].
  apply mem_In. reflexivity.
Qed.

(** C9, amended.  Membership in the deny and confirm lists is exact
    equality of strings with the first token.  The first token of the
    white-space split the handler uses never holds a blank, and neither
    does any token [shlex.split] produces from a command written without
    quotes and backslashes: on those the entry "ln -s" matches nothing.
    (It does match a first word that is quoted or escaped so as to hold
    the blank.) *)
Theorem ln_s_entry_needs_quoting :
  forall (command : string),
    (forall base_command tbl, Str.mem base_command tbl = true
                              <-> In base_command tbl)
    /\ (forall first rest, Str.split command = first :: rest ->
                           first <> "ln -s")
    /\ (forall parts, unquoted command = true ->
                      Shlex.split command = Some parts ->
                      ~ In "ln -s" parts).
Proof.
  intros command. split; [intros; apply mem_In|]. split.
  - intros first rest Hsplit ->.
    pose proof (split_from_no_blank command EmptyString eq_refl) as H.
    fold (Str.split command) in H. rewrite Hsplit in H.
    apply Forall_inv in H. discriminate H.
  - intros parts Hu Hsplit Hin.
    apply negb_true_iff in Hu.
    pose proof (tokens_no_blank command Shlex.InSpace EmptyString false
                  parts Hu (or_introl eq_refl) eq_refl Hsplit) as H.
    rewrite Forall_forall in H. specialize (H _ Hin). discriminate H.
Qed.

Lemma ln_s_entry_needs_quoting_witness :
  ~ In "ln -s" ["ln"; "-s"; "a"; "b"] /\ "ln" <> "ln -s".
Proof.
  split.
  - apply (proj2 (proj2 (ln_s_entry_needs_quoting "ln -s a b"))
             ["ln"; "-s"; "a"; "b"]); reflexivity.
  - apply (proj1 (proj2 (ln_s_entry_needs_quoting "ln -s a b"))
             "ln" ["-s"; "a"; "b"]); reflexivity.
Defined.

(* ------------------------------------------------------------------ *)
(** * The predicates                                                   *)
(* ------------------------------------------------------------------ *)

(** The claim C6 as the specification words it fails on the NPM
    predicate: when the working directory cannot be listed,
    [is_within_project_directory] lets the exception of [check_output]
    through instead of answering [False], already on an empty argument
    list. *)
Lemma project_directory_check_raises :
  In npm_filter secondary_filters
  /\ outcome (is_within_project_directory unreadable_env [])
     = Raise CalledProcessError
  /\ outcome (Filter.condition npm_filter [] unreadable_env [])
     = Raise CalledProcessError
  /\ outcome (Filter.condition npm_filter [] unreadable_env [])
     <> Value false.
Proof.
  split; [simpl; tauto|]. split; [reflexivity|]. split; [reflexivity|].
  discriminate.
Qed.

(** C6, amended.  Every predicate of the filter table returns a boolean,
    for every argument list and every ambient context, as long as it
    does not have to list a working directory that cannot be listed:
    that is, for every filter but the NPM one, and for the NPM one when
    the listing succeeds or when "-g" is among the arguments.  On an
    empty argument list the Docker, SSH and Git predicates answer
    [False]. *)
Theorem predicates_total_when_listing_succeeds :
  forall (f : Filter.t) (args : list string) (env : Env)
         (stdin : list string),
    In f secondary_filters ->
    (Filter.command f <> "npm"
     \/ (exists text, ls env = inr text)
     \/ In "-g" args) ->
    (exists b, outcome (Filter.condition f args env stdin) = Value b)
    /\ (args = [] ->
        In (Filter.command f) ["docker"; "ssh"; "git"] ->
        outcome (Filter.condition f args env stdin) = Value false).
Proof.
  intros f args env stdin Hf Hok.
  simpl in Hf.
  destruct Hf as [<-|[<-|[<-|[<-|[<-|[]]]]]];
    cbn [Filter.condition Filter.command pip_filter npm_filter
         docker_filter ssh_filter git_filter].
  - split.
    + unfold pip_condition. destruct (existsb _ args); eexists; reflexivity.
    + intros _ Hin. simpl in Hin.
      destruct Hin as [H|[H|[H|[]]]]; discriminate H.
  - split.
    + unfold npm_condition.
      destruct (Str.mem "-g" args) eqn:Eg; cbn [negb];
        [eexists; reflexivity|].
      destruct Hok as [H|[[text Hls]|Hin]].
      * now contradiction H.
      * unfold is_within_project_directory, bind.
        rewrite check_output_ls_run, Hls. eexists. reflexivity.
      * apply mem_In in Hin. congruence.
    + intros _ Hin. simpl in Hin.
      destruct Hin as [H|[H|[H|[]]]]; discriminate H.
  - split; [eexists; reflexivity|]. now intros ->.
  - split.
    + unfold ssh_condition. destruct args; eexists; reflexivity.
    + now intros ->.
  - split.
    + unfold git_condition. destruct args; eexists; reflexivity.
    + now intros ->.
Qed.

Lemma predicates_total_when_listing_succeeds_witness :
  (exists b, outcome (Filter.condition npm_filter ["install"; "left-pad"]
                        project_env []) = Value b)
  /\ outcome (Filter.condition ssh_filter [] unreadable_env []) = Value false.
Proof.
  split.
  - apply (predicates_total_when_listing_succeeds npm_filter
             ["install"; "left-pad"] project_env []).
    + simpl; tauto.
    + right. left. eexists. reflexivity.
  - apply (predicates_total_when_listing_succeeds ssh_filter
             [] unreadable_env []).
    + simpl; tauto.
    + left. simpl. discriminate.
    + reflexivity.
    + simpl; tauto.
Defined.

(* ------------------------------------------------------------------ *)
(** * Where the handler and [execute_command] part ways                *)
(* ------------------------------------------------------------------ *)

(** The handler checks the lists on [command.split()], the function it
    then calls on [shlex.split(command)], and the handler's filter loop
    leaves out the subcommand test of the function's loop.  The lemmas
    of this section evaluate both at the inputs where this shows. *)

(** On its own reading of the command the handler does demand a
    decision: a first white-space word in the confirm list and no
    [confirm] value give the HTTP 400 error, and nothing else happens. *)
Lemma api_demands_decision nope confirm_list filters command first rest
      env stdin :
  Str.split command = first :: rest ->
  ~ In first nope ->
  In first confirm_list ->
  api_execute_command_with nope confirm_list filters
    (CommandRequest.mk command None) env stdin
  = mkRun (Raise http_400_confirm) stdin [].
Proof.
  intros Hsplit Hnope Hconfirm.
  apply mem_not_In in Hnope. apply mem_In in Hconfirm.
  unfold api_execute_command_with.
  cbn [CommandRequest.command CommandRequest.confirm].
  rewrite (bind_value _ _ _ _ _ _ _
             (any_is_first_split _ _ _ nope env stdin Hsplit)), Hnope.
  rewrite (bind_value _ _ _ _ _ _ _
             (any_is_first_split _ _ _ confirm_list env stdin Hsplit)),
    Hconfirm.
  rewrite bind_raise. reflexivity.
Qed.

(** C3 at its failing input.  The request carries no [confirm] value and
    the command's base name, once the shell quotes are removed, is
    "curl", a member of the confirm list.  The handler compares the
    first white-space word, quotes included, with the lists, finds
    nothing, and calls [execute_command] with [None]: the process then
    reads an answer from its own standard input and, on "y", runs the
    command. *)
Theorem api_prompts_on_quoted_command :
  Shlex.split quoted_curl = Some ["curl"; "http://example.com"]
  /\ In "curl" confirm_commands
  /\ Str.split quoted_curl
     = [Str.wrap Str.dquote "curl"; "http://example.com"]
  /\ api_execute_command (CommandRequest.mk quoted_curl None)
       project_env ["y"]
     = mkRun (Value (CommandResponse.mk success
                       (ExecutedSuccessfully "done")))
         []
         [ EvConfirm (PromptRisk quoted_curl) ["y"];
           EvRun ["curl"; "http://example.com"] ].
Proof.
  split; [reflexivity|]. split; [apply mem_In; reflexivity|].
  split; reflexivity.
Qed.

(** The function itself answers an empty token list with a message. *)
Lemma execute_no_tokens nope confirm_list filters command user_confirm
      env stdin :
  Shlex.split command = Some [] ->
  execute_command_with nope confirm_list filters command user_confirm
    env stdin
  = mkRun (Value NoCommandProvided) stdin [].
Proof.
  intros H. unfold execute_command_with, shlex_split. now rewrite H.
Qed.

(** C4 at its failing input.  For the empty command, and for one made
    of blanks, [execute_command] returns "No command provided.", but the
    handler indexes [command.split()[0]] before it calls the function
    and leaves with [IndexError].  Unbalanced quotes leave both with the
    [ValueError] of [shlex.split]. *)
Theorem empty_command_faults_in_handler :
  forall (user_confirm : option bool) (env : Env) (stdin : list string),
    execute_command EmptyString user_confirm env stdin
    = mkRun (Value NoCommandProvided) stdin []
    /\ api_execute_command (CommandRequest.mk EmptyString user_confirm)
         env stdin
       = mkRun (Raise IndexError) stdin []
    /\ api_execute_command (CommandRequest.mk "   " user_confirm) env stdin
       = mkRun (Raise IndexError) stdin []
    /\ execute_command "echo 'abc" user_confirm env stdin
       = mkRun (Raise ValueError) stdin []
    /\ api_execute_command (CommandRequest.mk "echo 'abc" user_confirm)
         env stdin
       = mkRun (Raise ValueError) stdin [].
Proof.
  intros user_confirm env stdin. repeat split; reflexivity.
Qed.

(** In [execute_command] a filter whose subcommand differs from the
    first argument is passed over before its predicate is looked at. *)
Lemma check_filters_skips_subcommand command base_command a args subcmd
      user_confirm f more :
  Filter.subcommand f = Some subcmd ->
  subcmd <> EmptyString ->
  a <> subcmd ->
  check_filters command base_command (a :: args) user_confirm (f :: more)
  = check_filters command base_command (a :: args) user_confirm more.
Proof.
  intros Hsub Hne Hdiff. cbn [check_filters].
  destruct (String.eqb (Filter.command f) base_command); [|reflexivity].
  rewrite Hsub. cbn [truthy first_differs length Nat.ltb Nat.leb].
  apply String.eqb_neq in Hne. apply String.eqb_neq in Hdiff.
  now rewrite Hne, Hdiff.
Qed.

(** C5 at its failing input.  "git" is in neither list and the one
    filter on it requires the subcommand "push".  For "git status
    origin" the loop of [execute_command] passes the filter over and the
    command runs, even with [confirm] false; the handler's own loop has
    no subcommand test, evaluates the predicate on the whole argument
    list, finds the allowed remote "origin", and cancels the request, or
    demands a decision with the Git-push rationale when none came. *)
Theorem api_filter_ignores_subcommand :
  forall (env : Env) (stdin : list string),
    Filter.subcommand git_filter = Some "push"
    /\ execute_command git_status (Some false) env stdin
       = mkRun (Value (report "git" (run env ["git"; "status"; "origin"])))
           stdin [EvRun ["git"; "status"; "origin"]]
    /\ api_execute_command (CommandRequest.mk git_status (Some false))
         env stdin
       = mkRun (Value (CommandResponse.mk cancelled CancelledByUser))
           stdin []
    /\ api_execute_command (CommandRequest.mk git_status None) env stdin
       = mkRun (Raise (http_400_filter (Filter.message git_filter)))
           stdin [].
Proof.
  intros env stdin. split; [reflexivity|]. split; [|split; reflexivity].
  unfold execute_command, execute_command_with, shlex_split, git_status.
  cbn. now destruct (run env ["git"; "status"; "origin"]).
Qed.

(* ------------------------------------------------------------------ *)
(** * The loop of [confirm]                                            *)
(* ------------------------------------------------------------------ *)

Lemma read_answer_skips junk :
  forall line rest,
    Forall (fun l => recognized l = false) junk ->
    recognized line = true ->
    read_answer (junk ++ line :: rest)
    = (Value (says_yes line), junk ++ [line], rest).
Proof.
  induction junk as [|j junk IH]; intros line rest Hjunk Hline.
  - cbn [app read_answer]. unfold recognized, says_yes, says_no in Hline.
    unfold says_yes.
    destruct (Str.mem (Str.lower line) ["y"; "yes"]); [reflexivity|].
    cbn [orb] in Hline. now rewrite Hline.
  - inversion Hjunk as [|? ? Hj Hrest]; subst.
    cbn [app read_answer]. unfold recognized, says_yes, says_no in Hj.
    apply orb_false_iff in Hj. destruct Hj as [Hy Hn].
    rewrite Hy, Hn, (IH line rest Hrest Hline). reflexivity.
Qed.

Lemma read_answer_exhausts stdin :
  Forall (fun l => recognized l = false) stdin ->
  read_answer stdin = (Raise EOFError, stdin, []).
Proof.
  induction 1 as [|j junk Hj Hrest IH]; [reflexivity|].
  cbn [read_answer]. unfold recognized, says_yes, says_no in Hj.
  apply orb_false_iff in Hj. destruct Hj as [Hy Hn].
  now rewrite Hy, Hn, IH.
Qed.

(** X1.  [confirm] answers with the first line of input that, in lower
    case, is "y", "yes", "n" or "no": the lines before it are read and
    passed over, the lines after it are left unread, and the answer is
    [True] exactly for "y" and "yes".  When no line of the input is such
    an answer, all of it is read and the [EOFError] of [input] leaves the
    function. *)
Theorem confirm_takes_first_answer :
  forall (prompt : Prompt) (env : Env) (junk : list string),
    Forall (fun l => recognized l = false) junk ->
    (forall line rest,
        recognized line = true ->
        confirm prompt env (junk ++ line :: rest)
        = mkRun (Value (says_yes line)) rest
            [EvConfirm prompt (junk ++ [line])])
    /\ confirm prompt env junk
       = mkRun (Raise EOFError) [] [EvConfirm prompt junk].
Proof.
  intros prompt env junk Hjunk. split.
  - intros line rest Hline. unfold confirm.
    now rewrite (read_answer_skips junk line rest Hjunk Hline).
  - unfold confirm. now rewrite (read_answer_exhausts junk Hjunk).
Qed.

Lemma confirm_takes_first_answer_witness :
  confirm (PromptRisk "curl x") project_env
    (["maybe"; " y"] ++ "YES" :: ["n"])
  = mkRun (Value true) ["n"]
      [EvConfirm (PromptRisk "curl x") (["maybe"; " y"] ++ ["YES"])]
  /\ confirm (PromptRisk "curl x") project_env ["maybe"; " y"]
     = mkRun (Raise EOFError) []
         [EvConfirm (PromptRisk "curl x") ["maybe"; " y"]].
Proof.
  assert (H : Forall (fun l => recognized l = false) ["maybe"; " y"])
    by (repeat constructor).
  split.
  - apply (proj1 (confirm_takes_first_answer (PromptRisk "curl x")
                    project_env ["maybe"; " y"] H) "YES" ["n"]).
    reflexivity.
  - apply (proj2 (confirm_takes_first_answer (PromptRisk "curl x")
                    project_env ["maybe"; " y"] H)).
Defined.

(* ------------------------------------------------------------------ *)
(** * Standard input is consumed from the front                        *)
(* ------------------------------------------------------------------ *)

Lemma lines_read_app t u : lines_read (t ++ u) = lines_read t ++ lines_read u.
Proof. unfold lines_read. apply flat_map_app. Qed.

Lemma lines_read_unsolicited t : solicitations t = [] -> lines_read t = [].
Proof.
  induction t as [|e t IH]; [reflexivity|].
  destruct e; cbn; intros H; try discriminate; auto.
Qed.

Lemma read_answer_splits stdin :
  stdin = snd (fst (read_answer stdin)) ++ snd (read_answer stdin).
Proof.
  induction stdin as [|line more IH]; [reflexivity|].
  cbn [read_answer].
  destruct (Str.mem (Str.lower line) ["y"; "yes"]); [reflexivity|].
  destruct (Str.mem (Str.lower line) ["n"; "no"]); [reflexivity|].
  destruct (read_answer more) as [[o read] rest]. cbn in *. now f_equal.
Qed.

Section Conservation.

Context {A : Type}.

Lemma conserves_unprompted (m : M A) : unprompted m -> conserves m.
Proof.
  intros H env stdin. destruct (H env stdin) as [E S].
  rewrite (lines_read_unsolicited _ S). rewrite E at 1. reflexivity.
Qed.

Lemma conserves_ret (a : A) : conserves (ret a).
Proof. apply conserves_unprompted, unprompted_ret. Qed.

Lemma conserves_bind {B} (m : M A) (k : A -> M B) :
  conserves m -> (forall a, yields m a -> conserves (k a)) ->
  conserves (bind m k).
Proof.
  intros Hm Hk env stdin. unfold bind.
  destruct (outcome (m env stdin)) as [a|e] eqn:E;
    cbn [trace stdin_left]; [|apply Hm].
  rewrite lines_read_app, <- app_assoc.
  rewrite <- (Hk a (ex_intro _ env (ex_intro _ stdin E))
                env (stdin_left (m env stdin))).
  apply Hm.
Qed.

End Conservation.

Lemma conserves_ask_or_cancel prompt user_confirm :
  conserves (ask_or_cancel prompt user_confirm).
Proof.
  destruct user_confirm as [b|];
    [apply conserves_unprompted, unprompted_ask_or_cancel|].
  intros env stdin. rewrite ask_or_cancel_unset.
  cbn [trace stdin_left lines_read flat_map]. rewrite app_nil_r.
  apply read_answer_splits.
Qed.

Lemma conserves_check_filters command base_command args user_confirm fs :
  Forall quiet fs ->
  conserves (check_filters command base_command args user_confirm fs).
Proof.
  intros Hq. revert user_confirm.
  induction Hq as [|f more Hf Hmore IH]; intros user_confirm;
    [apply conserves_ret|].
  cbn [check_filters].
  destruct (String.eqb (Filter.command f) base_command); [|apply IH].
  destruct (_ && _ && _); [apply IH|].
  apply conserves_bind; [apply conserves_unprompted, Hf|].
  intros [|] _; [|apply IH].
  apply conserves_bind; [apply conserves_ask_or_cancel|].
  intros [m|next] _; [apply conserves_ret | apply IH].
Qed.

Lemma conserves_execute nope confirm_list filters command user_confirm :
  Forall quiet filters ->
  conserves
    (execute_command_with nope confirm_list filters command user_confirm).
Proof.
  intros Hq. unfold execute_command_with.
  apply conserves_bind;
    [apply conserves_unprompted, unprompted_shlex_split|].
  intros [|base args] _; [apply conserves_ret|].
  destruct (Str.mem base nope); [apply conserves_ret|].
  apply conserves_bind.
  { destruct (Str.mem base confirm_list);
      [apply conserves_ask_or_cancel | apply conserves_ret]. }
  intros [m|next] _; [apply conserves_ret|].
  apply conserves_bind; [now apply conserves_check_filters|].
  intros [m|next'] _; [apply conserves_ret|].
  apply conserves_unprompted, unprompted_run_command.
Qed.

(** The parts of the handler that come before [execute_command] read
    nothing, ask nothing and run nothing. *)
Lemma inert_ret {A} (a : A) : inert (ret a).
Proof. split; [apply unprompted_ret | apply emits_no_ret]. Qed.

Lemma inert_raise {A} (e : Exn) : inert (@raise A e).
Proof. split; [apply unprompted_raise | apply emits_no_raise]. Qed.

Lemma inert_bind {A B} (m : M A) (k : A -> M B) :
  inert m -> (forall a, yields m a -> inert (k a)) -> inert (bind m k).
Proof.
  intros [Hu He] Hk. split.
  - apply unprompted_bind; [exact Hu | intros a Ha; apply Hk, Ha].
  - apply emits_no_bind; [exact He | intros a Ha; apply Hk, Ha].
Qed.

Lemma inert_item0 xs : inert (item0 xs).
Proof. destruct xs; [apply inert_raise | apply inert_ret]. Qed.

Lemma inert_any_is_first command cmds : inert (any_is_first command cmds).
Proof.
  induction cmds as [|cmd more IH]; [apply inert_ret|].
  cbn [any_is_first]. apply inert_bind; [apply inert_item0|].
  intros first _.
  destruct (String.eqb cmd first); [apply inert_ret | apply IH].
Qed.

Lemma inert_applicable command fs : inert (applicable command fs).
Proof.
  induction fs as [|f more IH]; [apply inert_ret|].
  cbn [applicable]. apply inert_bind; [apply inert_item0|].
  intros first _. apply inert_bind; [apply IH|].
  intros rest _. apply inert_ret.
Qed.

Lemma applicable_quiet command fs picked :
  Forall quiet fs -> yields (applicable command fs) picked ->
  Forall quiet picked.
Proof.
  intros Hq. revert picked.
  induction Hq as [|f more Hf Hmore IH]; intros picked Hy.
  - apply yields_ret in Hy. subst. constructor.
  - cbn [applicable] in Hy.
    apply yields_bind in Hy. destruct Hy as [first [_ Hy]].
    apply yields_bind in Hy. destruct Hy as [rest [Hrest Hy]].
    apply yields_ret in Hy. subst picked.
    destruct (String.eqb (Filter.command f) first); auto.
Qed.

Lemma inert_api_check_filters command user_confirm fs :
  Forall quiet fs -> inert (api_check_filters command user_confirm fs).
Proof.
  intros Hq. induction Hq as [|f more Hf Hmore IH]; [apply inert_ret|].
  cbn [api_check_filters]. apply inert_bind; [apply Hf|].
  intros [|] _; [|apply IH].
  destruct user_confirm as [b|]; [|apply inert_raise].
  destruct (not_ (Some b)); [apply inert_ret | apply IH].
Qed.

(** The handler is its own checks, which are inert, followed by
    [execute_command] and the choice of a status: a property that
    passes through these steps passes from the function to the
    handler. *)
Lemma api_inherits (P : forall A, M A -> Prop) nope confirm_list filters
      request :
  (forall A (m : M A), inert m -> P A m) ->
  (forall A B (m : M A) (k : A -> M B),
      inert m -> (forall a, yields m a -> P B (k a)) -> P B (bind m k)) ->
  (forall (m : M Message) (f : Message -> CommandResponse.t),
      P Message m -> P CommandResponse.t (bind m (fun a => ret (f a)))) ->
  Forall quiet filters ->
  P Message (execute_command_with nope confirm_list filters
               (CommandRequest.command request)
               (CommandRequest.confirm request)) ->
  P CommandResponse.t
    (api_execute_command_with nope confirm_list filters request).
Proof.
  intros Hu Hb Hmap Hq He. unfold api_execute_command_with.
  apply Hb; [apply inert_any_is_first|].
  intros [|] _.
  { apply Hu, inert_bind; [apply inert_item0|].
    intros first _. apply inert_ret. }
  apply Hb; [apply inert_any_is_first|].
  intros listed _. apply Hb.
  { destruct listed; [|apply inert_ret].
    destruct (CommandRequest.confirm request) as [b|];
      [|apply inert_raise].
    destruct (not_ (Some b)); apply inert_ret. }
  intros [response|next] _; [apply Hu, inert_ret|].
  apply Hb; [apply inert_applicable|].
  intros picked Hpicked. apply Hb.
  { apply inert_api_check_filters.
    now apply (applicable_quiet _ _ _ Hq Hpicked). }
  intros [response|next'] _; [apply Hu, inert_ret|].
  apply Hmap, He.
Qed.

(** X2.  Both functions take their input from the front of standard
    input and account for every line they take: the input is the lines
    recorded in the [confirm] events of the trace, in order, followed by
    what is handed back.  Nothing is read outside [confirm], nothing is
    read twice, nothing is dropped. *)
Theorem standard_input_is_conserved :
  forall (command : string) (user_confirm : option bool) (env : Env)
         (stdin : list string),
    let r := execute_command command user_confirm env stdin in
    let a := api_execute_command (CommandRequest.mk command user_confirm)
               env stdin in
    stdin = lines_read (trace r) ++ stdin_left r
    /\ stdin = lines_read (trace a) ++ stdin_left a.
Proof.
  intros command user_confirm env stdin. split.
  - apply (conserves_execute nope_commands confirm_commands
             secondary_filters command user_confirm
             quiet_secondary_filters).
  - apply (api_inherits (fun A m => conserves m) nope_commands
             confirm_commands secondary_filters
             (CommandRequest.mk command user_confirm)).
    + intros A m [Hu _]. now apply conserves_unprompted.
    + intros A B m k [Hu _]. now apply conserves_bind, conserves_unprompted.
    + intros m f Hm. apply conserves_bind; [exact Hm|].
      intros x _. apply conserves_ret.
    + apply quiet_secondary_filters.
    + apply conserves_execute, quiet_secondary_filters.
Qed.

Lemma api_unprompted_supplied command (b : bool) :
  unprompted (api_execute_command (CommandRequest.mk command (Some b))).
Proof.
  apply (api_inherits (fun A m => unprompted m)).
  - now intros A m [Hu _].
  - intros A B m k [Hu _]. now apply unprompted_bind.
  - intros m f Hm. apply unprompted_bind; [exact Hm|].
    intros x _. apply unprompted_ret.
  - apply quiet_secondary_filters.
  - apply execute_unprompted, quiet_secondary_filters.
Qed.

(** X3.  A request that carries a [confirm] value never makes the
    handler call [confirm]: no solicitation occurs, standard input is
    handed back untouched, and outcome and trace do not depend on what
    standard input holds. *)
Theorem api_supplied_decision_never_prompts :
  forall (command : string) (b : bool) (env : Env)
         (stdin stdin' : list string),
    let a := api_execute_command (CommandRequest.mk command (Some b))
               env stdin in
    solicitations (trace a) = []
    /\ stdin_left a = stdin
    /\ outcome a
       = outcome (api_execute_command (CommandRequest.mk command (Some b))
                    env stdin')
    /\ trace a
       = trace (api_execute_command (CommandRequest.mk command (Some b))
                  env stdin').
Proof.
  intros command b env stdin stdin' a.
  pose proof (api_unprompted_supplied command b) as H.
  destruct (H env stdin) as [E S]. destruct (H env stdin') as [E' _].
  subst a. repeat split.
  - exact S.
  - now rewrite E.
  - now rewrite E, E'.
  - now rewrite E, E'.
Qed.

(* ------------------------------------------------------------------ *)
(** * What reaches the executor                                        *)
(* ------------------------------------------------------------------ *)

Section Selected.

Variable p : Event -> bool.
Variable S : list Event -> Prop.
Hypothesis S_nil : S [].

Lemma selected_none {A} (m : M A) : emits_no p m -> selected p S m.
Proof. intros H env stdin. now rewrite H. Qed.

Lemma selected_bind {A B} (m : M A) (k : A -> M B) :
  emits_no p m ->
  (forall a, yields m a -> selected p S (k a)) ->
  selected p S (bind m k).
Proof.
  intros Hm Hk env stdin.
  destruct (bind_trace m k env stdin) as [t [E [->|[a [Ea [-> _]]]]]];
    rewrite E, filter_app, Hm.
  - exact S_nil.
  - apply Hk. now exists env, stdin.
Qed.

Lemma selected_map {A B} (m : M A) (f : A -> B) :
  selected p S m -> selected p S (bind m (fun a => ret (f a))).
Proof.
  intros Hm env stdin. specialize (Hm env stdin). unfold bind.
  destruct (outcome (m env stdin)); cbn [trace ret];
    [now rewrite app_nil_r | assumption].
Qed.

End Selected.

Lemma yields_shlex_split command parts :
  yields (shlex_split command) parts -> Shlex.split command = Some parts.
Proof.
  unfold shlex_split. intros Hy.
  destruct (Shlex.split command) as [ps|].
  - apply yields_ret in Hy. now subst.
  - now apply yields_raise in Hy.
Qed.

Lemma execute_tokens_once nope confirm_list filters command user_confirm :
  Forall quiet filters ->
  selected is_run (tokens_once nope command)
    (execute_command_with nope confirm_list filters command user_confirm).
Proof.
  intros Hq.
  assert (Hnil : tokens_once nope command []) by now left.
  assert (Hp : forall prompt read, is_run (EvConfirm prompt read) = false)
    by reflexivity.
  unfold execute_command_with.
  apply selected_bind; [exact Hnil | now apply emits_no_shlex_split|].
  intros [|base args] Hparts;
    [apply selected_none; [exact Hnil | apply emits_no_ret]|].
  apply yields_shlex_split in Hparts.
  destruct (Str.mem base nope) eqn:Hn;
    [apply selected_none; [exact Hnil | apply emits_no_ret]|].
  apply mem_not_In in Hn.
  apply selected_bind; [exact Hnil| |].
  { destruct (Str.mem base confirm_list);
      [now apply emits_no_ask_or_cancel | apply emits_no_ret]. }
  intros [m|next] _;
    [apply selected_none; [exact Hnil | apply emits_no_ret]|].
  apply selected_bind; [exact Hnil| |].
  { apply emits_no_check_filters; [exact Hp|].
    now apply quiet_silent_on. }
  intros [m|next'] _;
    [apply selected_none; [exact Hnil | apply emits_no_ret]|].
  intros env stdin. right. exists base, args. auto.
Qed.

(** X4.  A submission reaches [subprocess.run] at most once, and then
    with exactly the token list [shlex.split] made of the command (never
    a shell string, never an altered list), whose first token is not in
    the deny list.  This holds for [execute_command] and for the
    handler, whose only executor call is the one of [execute_command];
    on the handler the first white-space word is not in the deny list
    either. *)
Theorem executor_called_once_on_tokens :
  forall (command : string) (user_confirm : option bool) (env : Env)
         (stdin : list string),
    let r := execute_command command user_confirm env stdin in
    let a := api_execute_command (CommandRequest.mk command user_confirm)
               env stdin in
    tokens_once nope_commands command (executed (trace r))
    /\ tokens_once nope_commands command (executed (trace a))
    /\ (executed (trace a) <> [] ->
        exists first rest, Str.split command = first :: rest
                           /\ ~ In first nope_commands).
Proof.
  intros command user_confirm env stdin r a.
  assert (Hr : selected is_run (tokens_once nope_commands command)
                 (execute_command command user_confirm))
    by apply execute_tokens_once, quiet_secondary_filters.
  assert (Ha : selected is_run (tokens_once nope_commands command)
                 (api_execute_command
                    (CommandRequest.mk command user_confirm))).
  { apply (api_inherits
             (fun A m => selected is_run
                           (tokens_once nope_commands command) m)).
    - intros A m [_ He]. apply selected_none; [now left | exact He].
    - intros A B m k [_ He]. apply selected_bind; [now left | exact He].
    - intros m f. apply selected_map.
    - apply quiet_secondary_filters.
    - exact Hr. }
  split; [apply Hr|]. split; [apply Ha|].
  intros Hrun. destruct (Str.split command) as [|first rest] eqn:Hs.
  - exfalso. apply Hrun. subst a.
    unfold api_execute_command, api_execute_command_with, nope_commands.
    cbn [CommandRequest.command any_is_first]. rewrite Hs. reflexivity.
  - exists first, rest. split; [reflexivity|].
    intros Hin. apply Hrun. subst a.
    unfold api_execute_command.
    now rewrite (api_denied _ _ _ _ _ _ _ _ _ Hs Hin).
Qed.

Lemma executor_called_once_on_tokens_witness :
  exists first rest, Str.split "echo hello" = first :: rest
                     /\ ~ In first nope_commands.
Proof.
  apply (proj2 (proj2 (executor_called_once_on_tokens "echo hello" None
                         project_env []))).
  discriminate.
Defined.

(* ------------------------------------------------------------------ *)
(** * Listed commands run on approval only                             *)
(* ------------------------------------------------------------------ *)

Lemma api_rejects nope confirm_list filters command first rest env stdin :
  Str.split command = first :: rest ->
  ~ In first nope ->
  In first confirm_list ->
  api_execute_command_with nope confirm_list filters
    (CommandRequest.mk command (Some false)) env stdin
  = mkRun (Value (CommandResponse.mk cancelled CancelledByUser)) stdin [].
Proof.
  intros Hsplit Hnope Hconfirm.
  apply mem_not_In in Hnope. apply mem_In in Hconfirm.
  unfold api_execute_command_with.
  cbn [CommandRequest.command CommandRequest.confirm].
  rewrite (bind_value _ _ _ _ _ _ _
             (any_is_first_split _ _ _ nope env stdin Hsplit)), Hnope.
  rewrite (bind_value _ _ _ _ _ _ _
             (any_is_first_split _ _ _ confirm_list env stdin Hsplit)),
    Hconfirm.
  reflexivity.
Qed.

(** X5.  A command of the confirm list is executed on approval only,
    whatever the tables hold besides.  If [execute_command] has handed a
    command whose base token is in the confirm list to the executor,
    then [True] was supplied, or nothing was supplied and the answer
    read by [confirm] was "y" or "yes".  If the handler has reached the
    executor on a command whose first white-space word is in the confirm
    list, then the request carried [confirm = true]. *)
Theorem listed_command_runs_on_approval_only :
  forall (nope confirm_list : list string) (filters : list Filter.t)
         (command first : string) (rest : list string)
         (user_confirm : option bool) (env : Env) (stdin : list string),
    In first confirm_list ->
    (Shlex.split command = Some (first :: rest) ->
     executed (trace (execute_command_with nope confirm_list filters
                        command user_confirm env stdin)) <> [] ->
     user_confirm = Some true
     \/ (user_confirm = None
         /\ fst (fst (read_answer stdin)) = Value true))
    /\
    (Str.split command = first :: rest ->
     executed (trace (api_execute_command_with nope confirm_list filters
                        (CommandRequest.mk command user_confirm)
                        env stdin)) <> [] ->
     user_confirm = Some true).
Proof.
  intros nope confirm_list filters command first rest user_confirm env
    stdin Hin.
  split; intros Hsplit Hrun.
  - destruct user_confirm as [[|]|]; [now left | exfalso | right].
    + apply Hrun. unfold execute_command_with, shlex_split.
      rewrite Hsplit, bind_ret.
      destruct (Str.mem first nope); [reflexivity|].
      apply mem_In in Hin. rewrite Hin.
      now rewrite (bind_value _ _ _ _ _ _ _
                     (ask_or_cancel_supplied _ false env stdin)).
    + split; [reflexivity|].
      destruct (fst (fst (read_answer stdin))) as [[|]|e] eqn:E;
        [reflexivity | exfalso | exfalso];
        apply Hrun; unfold execute_command_with, shlex_split;
        rewrite Hsplit, bind_ret;
        (destruct (Str.mem first nope); [reflexivity|]);
        apply mem_In in Hin; rewrite Hin;
        unfold bind at 1; rewrite ask_or_cancel_unset, E; reflexivity.
  - destruct (Str.mem first nope) eqn:Hn.
    { exfalso. apply Hrun. apply mem_In in Hn.
      now rewrite (api_denied _ _ _ _ _ _ _ _ _ Hsplit Hn). }
    apply mem_not_In in Hn.
    destruct user_confirm as [[|]|]; [reflexivity | exfalso | exfalso];
      apply Hrun.
    + now rewrite (api_rejects _ _ _ _ _ _ _ _ Hsplit Hn Hin).
    + now rewrite (api_demands_decision _ _ _ _ _ _ _ _ Hsplit Hn Hin).
Qed.

Lemma listed_command_runs_on_approval_only_witness :
  None = Some true
  \/ (@None bool = None
      /\ fst (fst (read_answer ["Yes"])) = Value true).
Proof.
  apply (proj1 (listed_command_runs_on_approval_only nope_commands
                  confirm_commands secondary_filters
                  "curl https://example.com" "curl"
                  ["https://example.com"] None project_env ["Yes"]
                  ltac:(apply mem_In; reflexivity))).
  - reflexivity.
  - discriminate.
Defined.

(* ------------------------------------------------------------------ *)
(** * Which filters matter to [execute_command]                        *)
(* ------------------------------------------------------------------ *)

Lemma bind_ext {A B} (m : M A) (k k' : A -> M B) env stdin :
  (forall a, outcome (m env stdin) = Value a ->
             k a env (stdin_left (m env stdin))
             = k' a env (stdin_left (m env stdin))) ->
  bind m k env stdin = bind m k' env stdin.
Proof.
  intros H. unfold bind.
  destruct (outcome (m env stdin)) as [a|e]; [|reflexivity].
  now rewrite (H a eq_refl).
Qed.

(** Once the decision is [True], filters whose predicates answer without
    effect leave no mark: the loop goes through. *)
Lemma check_filters_approved_decided command base_command args fs env stdin :
  Forall (fun f => Filter.command f = base_command -> decides f) fs ->
  check_filters command base_command args (Some true) fs env stdin
  = mkRun (Value (Next (Some true))) stdin [].
Proof.
  induction 1 as [|f more Hf Hmore IH]; [reflexivity|].
  cbn [check_filters].
  destruct (String.eqb (Filter.command f) base_command) eqn:E; [|exact IH].
  apply String.eqb_eq in E.
  destruct (_ && _ && _); [exact IH|].
  destruct (Hf E args env stdin) as [b Hb].
  rewrite (bind_value _ _ _ _ _ _ _ Hb). destruct b.
  - rewrite (bind_value _ _ _ _ _ _ _
               (ask_or_cancel_supplied _ true env stdin)).
    cbn [app]. now rewrite IH.
  - now rewrite IH.
Qed.

Lemma secondary_filters_decide base_command :
  base_command <> "npm" ->
  Forall (fun f => Filter.command f = base_command -> decides f)
         secondary_filters.
Proof.
  intros Hbase. unfold secondary_filters.
  repeat (apply Forall_cons || apply Forall_nil);
    intros Hc args env stdin;
    cbn [Filter.condition Filter.command pip_filter npm_filter
         docker_filter ssh_filter git_filter] in *.
  - unfold pip_condition. destruct (existsb _ args); eexists; reflexivity.
  - now contradiction Hbase.
  - eexists. reflexivity.
  - unfold ssh_condition. destruct args; eexists; reflexivity.
  - unfold git_condition. destruct args; eexists; reflexivity.
Qed.

(** Every filter is on "git" or on a member of the confirm list. *)
Lemma secondary_filters_bases f :
  In f secondary_filters ->
  Filter.command f = "git" \/ In (Filter.command f) confirm_commands.
Proof.
  intros Hf. simpl in Hf.
  destruct Hf as [<-|[<-|[<-|[<-|[<-|[]]]]]];
    solve [now left | right; apply mem_In; reflexivity].
Qed.

(** X6.  In [execute_command] the filters on "pip", "docker" and "ssh"
    change nothing: for every command whose base token is neither "npm"
    nor "git", the run with the program's filter table is the run with
    an empty filter table, in outcome, trace and input consumed.  (These
    base commands are in the confirm list, so the decision is [True] by
    the time the loop looks at their filters.) *)
Theorem filters_matter_for_npm_and_git_only :
  forall (command : string) (user_confirm : option bool) (env : Env)
         (stdin : list string),
    (forall args, Shlex.split command <> Some ("npm" :: args)) ->
    (forall args, Shlex.split command <> Some ("git" :: args)) ->
    execute_command command user_confirm env stdin
    = execute_command_with nope_commands confirm_commands []
        command user_confirm env stdin.
Proof.
  intros command user_confirm env stdin Hnpm Hgit.
  unfold execute_command, execute_command_with, shlex_split.
  destruct (Shlex.split command) as [[|base args]|] eqn:Hs;
    try reflexivity.
  rewrite !bind_ret.
  destruct (Str.mem base nope_commands); [reflexivity|].
  assert (Hbn : base <> "npm") by (intros ->; now apply (Hnpm args)).
  assert (Hbg : base <> "git") by (intros ->; now apply (Hgit args)).
  apply bind_ext. intros [m|next] Hstep; [reflexivity|].
  cbn [check_filters]. rewrite (bind_ret (Next next)).
  match goal with
  | |- bind (check_filters _ _ _ _ _) _ _ ?s = _ =>
      assert (Hloop : exists next',
                 check_filters command base args next secondary_filters
                   env s = mkRun (Value (Next next')) s [])
  end.
  { destruct (Str.mem base confirm_commands) eqn:Hc.
    - assert (next = Some true) as ->.
      { apply (ask_or_cancel_next (PromptRisk command) user_confirm).
        now exists env, stdin. }
      eexists. apply check_filters_approved_decided.
      now apply secondary_filters_decide.
    - exists next. apply check_filters_unrelated.
      intros f Hf E. apply mem_not_In in Hc.
      destruct (secondary_filters_bases f Hf) as [H|H];
        rewrite E in H; contradiction. }
  destruct Hloop as [next' Hloop].
  rewrite (bind_value _ _ _ _ _ _ _ Hloop).
  rewrite run_command_report. reflexivity.
Qed.

Lemma filters_matter_for_npm_and_git_only_witness :
  execute_command "docker run nginx" None project_env ["y"]
  = execute_command_with nope_commands confirm_commands []
      "docker run nginx" None project_env ["y"].
Proof.
  apply filters_matter_for_npm_and_git_only; intros args; discriminate.
Defined.

(* ------------------------------------------------------------------ *)
(** * The one gate outside the confirm list                            *)
(* ------------------------------------------------------------------ *)

Lemma check_filters_git command args user_confirm env stdin :
  check_filters command "git" args user_confirm secondary_filters env stdin
  = if git_push_to_allowed args
    then ask_or_cancel (PromptFilter (Filter.message git_filter) command)
           user_confirm env stdin
    else mkRun (Value (Next user_confirm)) stdin [].
Proof.
  unfold secondary_filters. cbn [check_filters].
  replace (String.eqb (Filter.command pip_filter) "git") with false
    by reflexivity.
  replace (String.eqb (Filter.command npm_filter) "git") with false
    by reflexivity.
  replace (String.eqb (Filter.command docker_filter) "git") with false
    by reflexivity.
  replace (String.eqb (Filter.command ssh_filter) "git") with false
    by reflexivity.
  replace (String.eqb (Filter.command git_filter) "git") with true
    by reflexivity.
  cbv iota.
  cbn [Filter.subcommand Filter.condition Filter.message git_filter truthy].
  replace (negb (String.eqb "push" EmptyString)) with true by reflexivity.
  destruct args as [|a rest]; [reflexivity|].
  cbn [length Nat.ltb Nat.leb first_differs andb git_push_to_allowed].
  destruct (String.eqb a "push") eqn:Ea; cbn [negb andb].
  - unfold git_condition.
    rewrite (bind_ret (is_allowed_remote (last (a :: rest) EmptyString))).
    destruct (is_allowed_remote (last (a :: rest) EmptyString));
      [|reflexivity].
    destruct user_confirm as [b|].
    + rewrite (bind_value _ _ _ _ _ _ _
                 (ask_or_cancel_supplied _ b env stdin)).
      rewrite ask_or_cancel_supplied. now destruct b.
    + unfold bind. rewrite ask_or_cancel_unset.
      cbn [outcome stdin_left trace].
      destruct (fst (fst (read_answer stdin))) as [[|]|e]; reflexivity.
  - reflexivity.
Qed.

(** X7.  "git" is in neither list, and its filter is the only gate a
    command outside the confirm list can meet.  A "git" command that is
    not a push whose last argument is "origin" or "upstream" runs
    without any confirmation, whatever was supplied, [False] included.
    A push to "origin" or "upstream" is gated: it is cancelled on
    [False], runs on [True], and without a decision [confirm] is called
    with the Git rationale; the command runs on "yes" only. *)
Theorem git_push_gate :
  forall (command : string) (args : list string) (env : Env)
         (stdin : list string),
    Shlex.split command = Some ("git" :: args) ->
    let ran := mkRun (Value (report "git" (run env ("git" :: args))))
                 stdin [EvRun ("git" :: args)] in
    let asked :=
      EvConfirm (PromptFilter (Filter.message git_filter) command)
        (snd (fst (read_answer stdin))) in
    let rest := snd (read_answer stdin) in
    (git_push_to_allowed args = false ->
     forall user_confirm,
       execute_command command user_confirm env stdin = ran)
    /\
    (git_push_to_allowed args = true ->
     execute_command command (Some true) env stdin = ran
     /\ execute_command command (Some false) env stdin
        = mkRun (Value CancelledByUser) stdin []
     /\ execute_command command None env stdin
        = match fst (fst (read_answer stdin)) with
          | Value true =>
              mkRun (Value (report "git" (run env ("git" :: args))))
                rest [asked; EvRun ("git" :: args)]
          | Value false => mkRun (Value CancelledByUser) rest [asked]
          | Raise e => mkRun (Raise e) rest [asked]
          end).
Proof.
  intros command args env stdin Hs ran asked rest.
  assert (Hexec : forall user_confirm,
             execute_command command user_confirm env stdin
             = bind (check_filters command "git" args user_confirm
                       secondary_filters)
                 (fun step => match step with
                              | Return m => ret m
                              | Next _ => run_command ("git" :: args) "git"
                              end) env stdin).
  { intros user_confirm.
    unfold execute_command, execute_command_with, shlex_split.
    rewrite Hs, bind_ret.
    replace (Str.mem "git" nope_commands) with false by reflexivity.
    replace (Str.mem "git" confirm_commands) with false by reflexivity.
    now rewrite (bind_ret (Next user_confirm)). }
  split; intros Hgate.
  - intros user_confirm. rewrite Hexec. unfold bind.
    rewrite check_filters_git, Hgate. reflexivity.
  - rewrite !Hexec. unfold bind. rewrite !check_filters_git, Hgate.
    rewrite !ask_or_cancel_supplied, ask_or_cancel_unset.
    cbn [outcome stdin_left trace]. repeat split.
    destruct (fst (fst (read_answer stdin))) as [[|]|e]; reflexivity.
Qed.

Lemma git_push_gate_witness :
  execute_command "git push fork" (Some false) project_env []
  = mkRun (Value (ExecutedSuccessfully "done")) []
      [EvRun ["git"; "push"; "fork"]]
  /\ execute_command "git push origin" (Some false) project_env []
     = mkRun (Value CancelledByUser) [] [].
Proof.
  split.
  - apply (proj1 (git_push_gate "git push fork" ["push"; "fork"]
                    project_env [] eq_refl) eq_refl (Some false)).
  - apply (proj2 (git_push_gate "git push origin" ["push"; "origin"]
                    project_env [] eq_refl) eq_refl).
Defined.

(* ------------------------------------------------------------------ *)
(** * What the functions return and raise                              *)
(* ------------------------------------------------------------------ *)

Section Outcomes.

Context {A B : Type}.
Variables (m : M A) (k : A -> M B).

Lemma returns_bind (Q : Env -> B -> Prop) :
  (forall a, yields m a -> returns Q (k a)) -> returns Q (bind m k).
Proof.
  intros Hk env stdin b Hb. unfold bind in Hb.
  destruct (outcome (m env stdin)) as [a|e] eqn:E; [|discriminate].
  apply (Hk a (ex_intro _ env (ex_intro _ stdin E))
           env (stdin_left (m env stdin))).
  exact Hb.
Qed.

Lemma raises_only_bind (E : Env -> Exn -> Prop) :
  raises_only E m ->
  (forall a, yields m a -> raises_only E (k a)) ->
  raises_only E (bind m k).
Proof.
  intros Hm Hk env stdin e He. unfold bind in He.
  destruct (outcome (m env stdin)) as [a|e'] eqn:Eo.
  - apply (Hk a (ex_intro _ env (ex_intro _ stdin Eo))
             env (stdin_left (m env stdin))).
    exact He.
  - cbn in He. injection He as <-. now apply (Hm env stdin).
Qed.

End Outcomes.

Lemma returns_ret {A} (Q : Env -> A -> Prop) (a : A) :
  (forall env, Q env a) -> returns Q (ret a).
Proof. intros H env stdin b Hb. cbn in Hb. injection Hb as <-. apply H. Qed.

Lemma returns_map {A B} (P : Env -> A -> Prop) (Q : Env -> B -> Prop)
      (m : M A) (f : A -> B) :
  returns P m -> (forall env a, P env a -> Q env (f a)) ->
  returns Q (bind m (fun a => ret (f a))).
Proof.
  intros Hm Hf env stdin b Hb. unfold bind in Hb.
  destruct (outcome (m env stdin)) as [a|e] eqn:E; [|discriminate].
  cbn in Hb. injection Hb as <-. apply Hf, (Hm env stdin a E).
Qed.

Lemma raises_only_ret {A} (E : Env -> Exn -> Prop) (a : A) :
  raises_only E (ret a).
Proof. intros env stdin e He. discriminate He. Qed.

Lemma raises_only_raise {A} (E : Env -> Exn -> Prop) (e : Exn) :
  (forall env, E env e) -> raises_only E (@raise A e).
Proof. intros H env stdin e' He. cbn in He. injection He as <-. apply H. Qed.

Lemma raises_only_weaken {A} (E E' : Env -> Exn -> Prop) (m : M A) :
  (forall env e, E env e -> E' env e) ->
  raises_only E m -> raises_only E' m.
Proof. intros H Hm env stdin e He. apply H, (Hm env stdin e He). Qed.

Lemma read_answer_raises stdin e :
  fst (fst (read_answer stdin)) = Raise e -> e = EOFError.
Proof.
  induction stdin as [|line more IH]; cbn [read_answer].
  - cbn. congruence.
  - destruct (Str.mem (Str.lower line) ["y"; "yes"]); [discriminate|].
    destruct (Str.mem (Str.lower line) ["n"; "no"]); [discriminate|].
    destruct (read_answer more) as [[o read] rest]. exact IH.
Qed.

Lemma ask_or_cancel_return prompt user_confirm m :
  yields (ask_or_cancel prompt user_confirm) (Return m) ->
  m = CancelledByUser.
Proof.
  intros [env [stdin H]]. destruct user_confirm as [b|].
  - rewrite ask_or_cancel_supplied in H. destruct b; simpl in H; congruence.
  - rewrite ask_or_cancel_unset in H. simpl in H.
    destruct (fst (fst (read_answer stdin))) as [[|]|]; congruence.
Qed.

Lemma ask_or_cancel_raises prompt user_confirm :
  raises_only (gate_exception user_confirm)
    (ask_or_cancel prompt user_confirm).
Proof.
  intros env stdin e He. destruct user_confirm as [b|].
  - rewrite ask_or_cancel_supplied in He. discriminate He.
  - rewrite ask_or_cancel_unset in He. cbn [outcome] in He. left.
    split; [|reflexivity].
    destruct (fst (fst (read_answer stdin))) as [[|]|e'] eqn:E;
      try discriminate He.
    injection He as <-. now apply read_answer_raises in E.
Qed.

Lemma check_filters_return command base_command args user_confirm fs m :
  yields (check_filters command base_command args user_confirm fs)
         (Return m) ->
  m = CancelledByUser.
Proof.
  revert user_confirm. induction fs as [|f more IH]; intros user_confirm Hy.
  - apply yields_ret in Hy. discriminate Hy.
  - cbn [check_filters] in Hy.
    destruct (String.eqb (Filter.command f) base_command); [|eauto].
    destruct (_ && _ && _); [eauto|].
    apply yields_bind in Hy. destruct Hy as [[|] [_ Hy]]; [|eauto].
    apply yields_bind in Hy. destruct Hy as [[m'|next] [Ha Hy]]; [|eauto].
    apply ask_or_cancel_return in Ha. apply yields_ret in Hy. congruence.
Qed.

Lemma check_filters_raises command base_command args user_confirm fs :
  Forall raises_listing_only fs ->
  raises_only (gate_exception user_confirm)
    (check_filters command base_command args user_confirm fs).
Proof.
  intros Hq. revert user_confirm.
  induction Hq as [|f more Hf Hmore IH]; intros user_confirm;
    [apply raises_only_ret|].
  cbn [check_filters].
  destruct (String.eqb (Filter.command f) base_command); [|apply IH].
  destruct (_ && _ && _); [apply IH|].
  apply raises_only_bind.
  { apply (raises_only_weaken _ _ _ (fun env e H => or_intror H)), Hf. }
  intros [|] _; [|apply IH].
  apply raises_only_bind; [apply ask_or_cancel_raises|].
  intros [m|next] Hy; [apply raises_only_ret|].
  apply ask_or_cancel_next in Hy. subst next.
  apply (raises_only_weaken (gate_exception (Some true))); [|apply IH].
  intros env e [[_ H]|H]; [discriminate H | now right].
Qed.

Lemma secondary_filters_raise_listing_only :
  Forall raises_listing_only secondary_filters.
Proof.
  unfold secondary_filters.
  repeat (apply Forall_cons || apply Forall_nil); intros args;
    cbn [Filter.condition pip_filter npm_filter docker_filter ssh_filter
         git_filter].
  - unfold pip_condition. destruct (existsb _ args);
      [apply raises_only_ret | intros env stdin e He; discriminate He].
  - unfold npm_condition. destruct (negb _); [|apply raises_only_ret].
    unfold is_within_project_directory. apply raises_only_bind.
    + intros env stdin e He. rewrite check_output_ls_run in He.
      cbn [outcome] in He. destruct (ls env); congruence.
    + intros text _. apply raises_only_ret.
  - apply raises_only_ret.
  - unfold ssh_condition. destruct args; apply raises_only_ret.
  - unfold git_condition. destruct args; apply raises_only_ret.
Qed.

Section ExecuteOutcomes.

Variables nope confirm_list : list string.
Variable filters : list Filter.t.

Lemma execute_returns command user_confirm :
  returns (stop_or_report command)
    (execute_command_with nope confirm_list filters command user_confirm).
Proof.
  unfold execute_command_with.
  apply returns_bind. intros [|base args] Hparts;
    [apply returns_ret; now left|].
  apply yields_shlex_split in Hparts.
  destruct (Str.mem base nope); [apply returns_ret; now left|].
  apply returns_bind. intros [m|next] Hstep.
  { apply returns_ret. intros env. left.
    destruct (Str.mem base confirm_list).
    - apply ask_or_cancel_return in Hstep. now subst m.
    - apply yields_ret in Hstep. discriminate Hstep. }
  apply returns_bind. intros [m|next'] Hloop.
  { apply returns_ret. intros env. left.
    apply check_filters_return in Hloop. now subst m. }
  intros env stdin m Hm. right. exists base, args.
  rewrite run_command_report in Hm. cbn in Hm. injection Hm as <-. auto.
Qed.

Lemma execute_raises command user_confirm :
  Forall raises_listing_only filters ->
  raises_only (execute_exception user_confirm)
    (execute_command_with nope confirm_list filters command user_confirm).
Proof.
  intros Hq.
  assert (Hgate : forall uc env e,
             gate_exception uc env e ->
             uc = user_confirm \/ uc = Some true ->
             execute_exception user_confirm env e).
  { intros uc env e [[He Hu]|H] Huc;
      [|now right; right].
    right; left. split; [exact He|].
    destruct Huc; congruence. }
  unfold execute_command_with.
  apply raises_only_bind.
  { unfold shlex_split. destruct (Shlex.split command);
      [apply raises_only_ret | apply raises_only_raise; now left]. }
  intros [|base args] _; [apply raises_only_ret|].
  destruct (Str.mem base nope); [apply raises_only_ret|].
  apply raises_only_bind.
  { destruct (Str.mem base confirm_list); [|apply raises_only_ret].
    apply (raises_only_weaken (gate_exception user_confirm));
      [|apply ask_or_cancel_raises].
    intros env e H. apply (Hgate user_confirm); auto. }
  intros [m|next] Hstep; [apply raises_only_ret|].
  assert (Hnext : next = user_confirm \/ next = Some true).
  { destruct (Str.mem base confirm_list).
    - right. now apply ask_or_cancel_next in Hstep.
    - left. apply yields_ret in Hstep. congruence. }
  apply raises_only_bind.
  { apply (raises_only_weaken (gate_exception next));
      [|now apply check_filters_raises].
    intros env e H. now apply (Hgate next). }
  intros [m|next'] _; [apply raises_only_ret|].
  intros env stdin e He. rewrite run_command_report in He. discriminate He.
Qed.

End ExecuteOutcomes.

(** X8.  The status of a response of the handler fits its message:
    [success] comes with the "executed successfully" message only,
    [cancelled] with the "cancelled" message only, [blocked] with the
    "restricted" message only, and [error] with the five messages that
    start with a cross mark.  A [success] response means that the
    executor ran the tokens of the command and the process ended with
    exit status zero: its message carries the captured output. *)
Theorem response_status_fits_message :
  forall (request : CommandRequest.t) (env : Env) (stdin : list string)
         (response : CommandResponse.t),
    outcome (api_execute_command request env stdin) = Value response ->
    agrees response = true
    /\ (CommandResponse.status response = success ->
        exists base_command args stdout,
          Shlex.split (CommandRequest.command request)
          = Some (base_command :: args)
          /\ run env (base_command :: args) = Completed stdout
          /\ CommandResponse.message response
             = ExecutedSuccessfully stdout).
Proof.
  intros request env stdin response.
  set (Q := fun (env : Env) (response : CommandResponse.t) =>
              agrees response = true
              /\ (CommandResponse.status response = success ->
                  exists base_command args stdout,
                    Shlex.split (CommandRequest.command request)
                    = Some (base_command :: args)
                    /\ run env (base_command :: args) = Completed stdout
                    /\ CommandResponse.message response
                       = ExecutedSuccessfully stdout)).
  assert (Hcancel : forall env,
             Q env (CommandResponse.mk cancelled CancelledByUser)).
  { intros env'. split; [reflexivity | discriminate]. }
  revert env stdin response. change (returns Q (api_execute_command request)).
  unfold api_execute_command, api_execute_command_with.
  apply returns_bind. intros [|] _.
  { apply returns_bind. intros first _. apply returns_ret.
    intros env. split; [reflexivity | discriminate]. }
  apply returns_bind. intros listed _.
  apply returns_bind. intros [response|next] Hstep.
  { apply returns_ret. destruct listed;
      [|apply yields_ret in Hstep; discriminate Hstep].
    destruct (CommandRequest.confirm request) as [b|];
      [|now apply yields_raise in Hstep].
    destruct (not_ (Some b)); apply yields_ret in Hstep;
      [|discriminate Hstep].
    injection Hstep as <-. exact Hcancel. }
  apply returns_bind. intros picked _.
  apply returns_bind. intros [response|next'] Hloop.
  { apply returns_ret.
    assert (response = CommandResponse.mk cancelled CancelledByUser) as ->;
      [|exact Hcancel].
    clear - Hloop. induction picked as [|f more IH].
    - apply yields_ret in Hloop. discriminate Hloop.
    - cbn [api_check_filters] in Hloop.
      apply yields_bind in Hloop. destruct Hloop as [[|] [_ Hy]]; [|auto].
      destruct (CommandRequest.confirm request) as [b|];
        [|now apply yields_raise in Hy].
      destruct (not_ (Some b)); [|auto].
      apply yields_ret in Hy. congruence. }
  apply (returns_map (stop_or_report (CommandRequest.command request)));
    [apply execute_returns|].
  intros env m Hm. split; [unfold respond; now destruct m|].
  intros Hs. destruct Hm as [Hm|[base [args [Hsplit Hm]]]].
  - destruct m; discriminate.
  - exists base, args. subst m.
    destruct (run env (base :: args)) as [stdout| | |]; try discriminate Hs.
    exists stdout. auto.
Qed.

(** X9.  The exceptions that can leave the two functions.  From
    [execute_command]: the [ValueError] of [shlex.split], the [EOFError]
    of [input] (only when no decision was supplied), and what listing
    the working directory raised; a failure of the executed process
    never leaves as an exception.  From the handler: the same, the
    [IndexError] of [command.split()[0]], and an [HTTPException], which
    has status 400 and is raised only when the request carries no
    [confirm] value. *)
Theorem exceptions_that_leave :
  forall (command : string) (user_confirm : option bool) (env : Env)
         (stdin : list string) (e : Exn),
    (outcome (execute_command command user_confirm env stdin) = Raise e ->
     execute_exception user_confirm env e)
    /\
    (outcome (api_execute_command (CommandRequest.mk command user_confirm)
                env stdin) = Raise e ->
     e = IndexError
     \/ execute_exception user_confirm env e
     \/ (user_confirm = None /\ exists detail, e = HTTPException 400 detail)).
Proof.
  intros command user_confirm env stdin e. split.
  - apply (execute_raises nope_commands confirm_commands secondary_filters
             command user_confirm secondary_filters_raise_listing_only).
  - set (E := fun (env : Env) (e : Exn) =>
                e = IndexError
                \/ execute_exception user_confirm env e
                \/ (user_confirm = None
                    /\ exists detail, e = HTTPException 400 detail)).
    revert env stdin e.
    change (raises_only E (api_execute_command
                             (CommandRequest.mk command user_confirm))).
    assert (Hitem : forall xs, raises_only E (item0 xs)).
    { intros [|x xs]; [apply raises_only_raise; now left
                      | apply raises_only_ret]. }
    assert (Hany : forall cmds, raises_only E (any_is_first command cmds)).
    { induction cmds as [|cmd more IH]; [apply raises_only_ret|].
      cbn [any_is_first]. apply raises_only_bind; [apply Hitem|].
      intros first _. destruct (String.eqb cmd first);
        [apply raises_only_ret | apply IH]. }
    unfold api_execute_command, api_execute_command_with.
    cbn [CommandRequest.command CommandRequest.confirm].
    apply raises_only_bind; [apply Hany|]. intros [|] _.
    { apply raises_only_bind; [apply Hitem|].
      intros first _. apply raises_only_ret. }
    apply raises_only_bind; [apply Hany|]. intros listed _.
    apply raises_only_bind.
    { destruct listed; [|apply raises_only_ret].
      destruct user_confirm as [b|].
      - destruct (not_ (Some b)); apply raises_only_ret.
      - apply raises_only_raise. intros env. right; right.
        split; [reflexivity | eexists; reflexivity]. }
    intros [response|next] _; [apply raises_only_ret|].
    apply raises_only_bind.
    { induction secondary_filters as [|f more IH]; [apply raises_only_ret|].
      cbn [applicable]. apply raises_only_bind; [apply Hitem|].
      intros first _. apply raises_only_bind; [apply IH|].
      intros rest _. apply raises_only_ret. }
    intros picked Hpicked. apply raises_only_bind.
    { assert (Hq : Forall raises_listing_only picked).
      { clear - Hpicked.
        pose proof secondary_filters_raise_listing_only as Hall.
        revert picked Hpicked.
        induction Hall as [|f more Hf Hmore IH]; intros picked Hy.
        - apply yields_ret in Hy. subst. constructor.
        - cbn [applicable] in Hy.
          apply yields_bind in Hy. destruct Hy as [first [_ Hy]].
          apply yields_bind in Hy. destruct Hy as [rest [Hrest Hy]].
          apply yields_ret in Hy. subst picked.
          destruct (String.eqb (Filter.command f) first); auto. }
      clear Hpicked. induction Hq as [|f more Hf Hmore IH];
        [apply raises_only_ret|].
      cbn [api_check_filters]. apply raises_only_bind.
      { apply (raises_only_weaken (fun env e => ls env = inl e));
          [|apply Hf].
        intros env e H. right; left. now right; right. }
      intros [|] _; [|apply IH].
      destruct user_confirm as [b|].
      - destruct (not_ (Some b)); [apply raises_only_ret | apply IH].
      - apply raises_only_raise. intros env. right; right.
        split; [reflexivity | eexists; reflexivity]. }
    intros [response|next'] _; [apply raises_only_ret|].
    apply raises_only_bind.
    { apply (raises_only_weaken (execute_exception user_confirm)).
      - intros env e H. right; now left.
      - apply execute_raises, secondary_filters_raise_listing_only. }
    intros m _. apply raises_only_ret.
Qed.

Lemma exceptions_that_leave_witness :
  execute_exception None unreadable_env CalledProcessError.
Proof.
  apply (proj1 (exceptions_that_leave npm_install None unreadable_env
                  ["y"] CalledProcessError)).
  reflexivity.
Defined.

Lemma response_status_fits_message_witness :
  exists base_command args stdout,
    Shlex.split "echo hello" = Some (base_command :: args)
    /\ run project_env (base_command :: args) = Completed stdout
    /\ ExecutedSuccessfully "done" = ExecutedSuccessfully stdout.
Proof.
  apply (proj2 (response_status_fits_message
                  (CommandRequest.mk "echo hello" None) project_env []
                  (CommandResponse.mk success (ExecutedSuccessfully "done"))
                  eq_refl)).
  reflexivity.
Defined.


(* ------------------------------------------------------------------ *)
(** * Where the two tokenizers agree                                   *)
(* ------------------------------------------------------------------ *)

Lemma whitespace_isspace c :
  Str.has_char c Shlex.whitespace = true -> Str.isspace c = true.
Proof.
  unfold Shlex.whitespace. cbn [Str.has_char]. intros H.
  repeat (apply orb_true_iff in H; destruct H as [H|H]);
    try discriminate H; apply Ascii.eqb_eq in H; subst c; reflexivity.
Qed.

Lemma snoc_not_empty s c : String.eqb (s ++ String c EmptyString) EmptyString = false.
Proof. now destruct s. Qed.

Lemma tokens_split_from s :
  any_char (fun c => negb (plain_char c)) s = false ->
  Shlex.tokens Shlex.InSpace EmptyString false s
  = Some (Str.split_from EmptyString s)
  /\ forall cur, String.eqb cur EmptyString = false ->
                 Shlex.tokens Shlex.InWord cur false s
                 = Some (Str.split_from cur s).
Proof.
  induction s as [|c r IH]; intros Hs.
  - split; [reflexivity|]. intros cur Hcur.
    cbn [Shlex.tokens Str.split_from]. unfold Shlex.at_eof.
    now rewrite Hcur.
  - cbn [any_char] in Hs. apply orb_false_iff in Hs.
    destruct Hs as [Hc Hr]. destruct (IH Hr) as [IHs IHw].
    apply negb_false_iff in Hc. unfold plain_char in Hc.
    apply andb_true_iff in Hc. destruct Hc as [Hq Hw].
    apply negb_true_iff in Hq. unfold is_quoting in Hq.
    apply orb_false_iff in Hq. destruct Hq as [Hquote Hesc].
    cbn [Shlex.tokens Str.split_from]. rewrite Hquote, Hesc.
    destruct (Str.has_char c Shlex.whitespace) eqn:Ews.
    + rewrite (whitespace_isspace c Ews). split.
      * cbn. exact IHs.
      * intros cur Hcur. rewrite Hcur. cbn [negb orb].
        now rewrite IHs.
    + cbn [orb] in Hw. apply negb_true_iff in Hw. rewrite Hw. split.
      * apply IHw. reflexivity.
      * intros cur Hcur. apply IHw. apply snoc_not_empty.
Qed.



(* ------------------------------------------------------------------ *)
(** * The handler on plain commands                                    *)
(* ------------------------------------------------------------------ *)

Lemma calm_unprompted {A} (m : M A) env stdin :
  unprompted m -> calm (m env stdin) stdin.
Proof.
  intros H. destruct (H env stdin) as [E S]. split; [exact S|].
  now rewrite E.
Qed.

Lemma calm_bind {A B} (m : M A) (k : A -> M B) env stdin :
  calm (m env stdin) stdin ->
  (forall a, outcome (m env stdin) = Value a -> calm (k a env stdin) stdin) ->
  calm (bind m k env stdin) stdin.
Proof.
  intros [Hs Hl] Hk. unfold bind, calm. rewrite Hl.
  destruct (outcome (m env stdin)) as [a|e]; cbn [trace stdin_left].
  - destruct (Hk a eq_refl) as [Hs' Hl']. split; [|exact Hl'].
    unfold solicitations in *. now rewrite filter_app, Hs, Hs'.
  - now split.
Qed.

Lemma applicable_split command first rest fs env stdin :
  Str.split command = first :: rest ->
  applicable command fs env stdin
  = mkRun (Value (filter (fun f => String.eqb (Filter.command f) first) fs))
      stdin [].
Proof.
  intros Hs. induction fs as [|f more IH]; [reflexivity|].
  cbn [applicable filter]. rewrite Hs. cbn [item0]. rewrite bind_ret.
  rewrite (bind_value _ _ _ _ _ _ _ IH).
  now destruct (String.eqb (Filter.command f) first).
Qed.

(** When the handler's loop lets a request without a decision through,
    every predicate it looked at answered [False]. *)
Lemma api_check_filters_unset command fs env stdin step :
  Forall quiet fs ->
  outcome (api_check_filters command None fs env stdin) = Value step ->
  Forall (fun f =>
            outcome (Filter.condition f (tl (Str.split command)) env stdin)
            = Value false) fs.
Proof.
  induction 1 as [|f more Hf Hmore IH]; intros Hstep; [constructor|].
  cbn [api_check_filters] in Hstep. unfold bind in Hstep.
  destruct (Hf (tl (Str.split command))) as [Hu _].
  destruct (calm_unprompted _ env stdin Hu) as [_ Hl].
  rewrite Hl in Hstep.
  destruct (outcome (Filter.condition f (tl (Str.split command)) env stdin))
    as [[|]|e] eqn:E; try discriminate Hstep.
  constructor; [exact E|]. apply IH. exact Hstep.
Qed.

(** A filter loop in which every predicate looked at answers [False]
    asks nothing. *)
Lemma calm_check_filters command base_command args user_confirm fs env stdin :
  Forall quiet fs ->
  (forall f, In f fs -> Filter.command f = base_command ->
             outcome (Filter.condition f args env stdin) = Value false) ->
  calm (check_filters command base_command args user_confirm fs env stdin)
       stdin.
Proof.
  induction 1 as [|f more Hf Hmore IH]; intros Hfalse;
    [now split|].
  assert (Hrest : calm (check_filters command base_command args
                          user_confirm more env stdin) stdin)
    by (apply IH; intros g Hg; apply Hfalse; now right).
  cbn [check_filters].
  destruct (String.eqb (Filter.command f) base_command) eqn:E;
    [|exact Hrest].
  apply String.eqb_eq in E.
  destruct (_ && _ && _); [exact Hrest|].
  apply calm_bind; [apply calm_unprompted, Hf|].
  intros fires Hfires.
  rewrite (Hfalse f (or_introl eq_refl) E) in Hfires.
  injection Hfires as <-. exact Hrest.
Qed.

(** X11.  On a plain command the handler never calls [confirm], with or
    without a [confirm] value in the request: it asks nothing and leaves
    standard input untouched.  (Quotes, backslashes or the white space
    only [str.split] knows are what it takes to make the handler
    wait for input.) *)
Theorem api_never_prompts_on_plain_commands :
  forall (command : string) (user_confirm : option bool) (env : Env)
         (stdin : list string),
    plain command = true ->
    let a := api_execute_command (CommandRequest.mk command user_confirm)
               env stdin in
    solicitations (trace a) = [] /\ stdin_left a = stdin.
Proof.
  intros command user_confirm env stdin Hplain.
  destruct user_confirm as [b|];
    [apply calm_unprompted, api_unprompted_supplied|].
  change (calm (api_execute_command (CommandRequest.mk command None)
                  env stdin) stdin).
  pose proof quiet_secondary_filters as Hq.
  assert (Hshlex : Shlex.split command = Some (Str.split command)).
  { apply negb_true_iff in Hplain.
    apply (tokens_split_from command Hplain). }
  unfold api_execute_command, api_execute_command_with.
  cbn [CommandRequest.command CommandRequest.confirm].
  apply calm_bind; [apply calm_unprompted, inert_any_is_first|].
  intros denied Hdenied. destruct denied.
  { apply calm_unprompted, unprompted_bind; [apply unprompted_item0|].
    intros first _. apply unprompted_ret. }
  apply calm_bind; [apply calm_unprompted, inert_any_is_first|].
  intros listed Hlisted. destruct listed.
  { apply calm_bind; [now split|]. intros step Hstep. discriminate Hstep. }
  rewrite bind_ret.
  destruct (Str.split command) as [|first args] eqn:Hs.
  { (* no word: the first check has raised [IndexError] *)
    exfalso. revert Hdenied. unfold nope_commands.
    cbn [any_is_first]. rewrite Hs. discriminate. }
  rewrite (any_is_first_split _ _ _ _ _ _ Hs) in Hdenied.
  rewrite (any_is_first_split _ _ _ _ _ _ Hs) in Hlisted.
  apply (f_equal (fun o => match o with Value b => b | Raise _ => false end))
    in Hdenied, Hlisted.
  change (Str.mem first nope_commands = false) in Hdenied.
  change (Str.mem first confirm_commands = false) in Hlisted.
  rewrite (bind_value _ _ _ _ _ _ _
             (applicable_split _ _ _ secondary_filters env stdin Hs)).
  set (picked := filter (fun f => String.eqb (Filter.command f) first)
                   secondary_filters).
  assert (Hpq : Forall quiet picked).
  { apply Forall_forall. intros f Hf. apply filter_In in Hf.
    rewrite Forall_forall in Hq. now apply Hq. }
  cbn [app].
  match goal with
  | |- calm {| outcome := outcome ?r; stdin_left := _; trace := _ |} _ =>
      enough (Hc : calm r stdin) by (destruct Hc; now split)
  end.
  apply calm_bind;
    [apply calm_unprompted, (inert_api_check_filters _ _ _ Hpq)|].
  intros step Hstep.
  apply (api_check_filters_unset _ _ _ _ _ Hpq) in Hstep.
  rewrite Hs in Hstep. cbn [tl] in Hstep. rewrite Forall_forall in Hstep.
  destruct step as [response|next]; [now split|].
  apply calm_bind; [|intros m _; now split].
  unfold execute_command_with, shlex_split.
  rewrite Hshlex, bind_ret, Hdenied, Hlisted, bind_ret.
  apply calm_bind; [|intros [m|next'] _; now split].
  apply calm_check_filters; [exact Hq|].
  intros f Hf E. apply Hstep. apply filter_In. split; [exact Hf|].
  now apply String.eqb_eq.
Qed.

Lemma api_never_prompts_on_plain_commands_witness :
  solicitations
    (trace (api_execute_command (CommandRequest.mk "git push fork" None)
              project_env ["y"])) = []
  /\ stdin_left (api_execute_command (CommandRequest.mk "git push fork" None)
                   project_env ["y"]) = ["y"].
Proof.
  apply (api_never_prompts_on_plain_commands "git push fork" None
           project_env ["y"]).
  reflexivity.
Defined.

(* ------------------------------------------------------------------ *)
(** * The command-line interface                                       *)
(* ------------------------------------------------------------------ *)

Lemma cli_loop_at_eof fuel :
  forall world, cli_loop fuel world [] = (eof_iterations fuel, None).
Proof.
  induction fuel as [|fuel IH]; intros world; [reflexivity|].
  cbn [cli_loop eof_iterations]. now rewrite IH.
Qed.

Lemma execute_leaves_suffix command user_confirm env stdin line :
  In line (stdin_left (execute_command command user_confirm env stdin)) ->
  In line stdin.
Proof.
  intros H.
  rewrite (conserves_execute nope_commands confirm_commands secondary_filters
             command user_confirm quiet_secondary_filters env stdin).
  apply in_or_app. now right.
Qed.




Lemma blank_line_is_no_sentinel line :
  is_blank_line line = true -> is_sentinel line = false.
Proof.
  unfold is_blank_line, is_sentinel. intros H.
  apply String.eqb_eq in H. now rewrite H.
Qed.

Lemma cli_loop_sentinel fuel world line more :
  is_sentinel line = true ->
  cli_loop (S fuel) world (line :: more)
  = ([CliInput (Some line); CliPrint Exiting], Some more).
Proof.
  intros H. cbn [cli_loop]. fold (is_sentinel line). now rewrite H.
Qed.

Lemma cli_loop_blank fuel world line more :
  is_blank_line line = true ->
  cli_loop (S fuel) world (line :: more)
  = (CliInput (Some line) :: fst (cli_loop fuel (fun n => world (S n)) more),
     snd (cli_loop fuel (fun n => world (S n)) more)).
Proof.
  intros H. cbn [cli_loop]. fold (is_sentinel line).
  rewrite (blank_line_is_no_sentinel line H).
  unfold is_blank_line in H. rewrite H.
  now destruct (cli_loop fuel (fun n => world (S n)) more).
Qed.

(** X13.  Blank lines are passed over and the first "exit" or "quit"
    line ends the session: on an input that starts with blank lines
    followed by such a line the session prints the two header lines,
    asks once per line, prints "Exiting CLI." and returns; nothing is
    executed and the lines after the sentinel are left unread.  One
    iteration per line read is enough, and more change nothing. *)
Theorem cli_skips_blank_lines_and_exits :
  forall (blanks : list string) (line : string) (rest : list string)
         (world : nat -> Env) (extra : nat),
    Forall (fun l => is_blank_line l = true) blanks ->
    is_sentinel line = true ->
    cli_interface (S (length blanks) + extra) world (blanks ++ line :: rest)
    = (CliPrint Banner :: CliPrint Hint
         :: map (fun l => CliInput (Some l)) blanks
         ++ [CliInput (Some line); CliPrint Exiting],
       Some rest).
Proof.
  intros blanks line rest world extra Hblanks Hline.
  unfold cli_interface.
  enough (H : cli_loop (S (length blanks) + extra) world
                (blanks ++ line :: rest)
              = (map (fun l => CliInput (Some l)) blanks
                   ++ [CliInput (Some line); CliPrint Exiting], Some rest))
    by now rewrite H.
  revert world. induction Hblanks as [|b blanks Hb Hrest IH]; intros world.
  - apply cli_loop_sentinel, Hline.
  - change (S (length (b :: blanks)) + extra)
      with (S (S (length blanks) + extra)).
    change ((b :: blanks) ++ line :: rest)
      with (b :: (blanks ++ line :: rest)).
    rewrite (cli_loop_blank _ _ _ _ Hb), IH. reflexivity.
Qed.

Lemma cli_skips_blank_lines_and_exits_witness :
  cli_interface (S (length ["  "; EmptyString]) + 3) (fun _ => project_env)
    (["  "; EmptyString] ++ "EXIT" :: ["rm -rf /"])
  = (CliPrint Banner :: CliPrint Hint
       :: map (fun l => CliInput (Some l)) ["  "; EmptyString]
       ++ [CliInput (Some "EXIT"); CliPrint Exiting],
     Some ["rm -rf /"]).
Proof.
  apply cli_skips_blank_lines_and_exits.
  - repeat constructor.
  - reflexivity.
Defined.

Lemma cli_loop_runs fuel :
  forall world stdin argv,
    In (CliDoes (EvRun argv)) (fst (cli_loop fuel world stdin)) ->
    exists line base_command args,
      In line stdin
      /\ Shlex.split (strip line) = Some (base_command :: args)
      /\ argv = base_command :: args
      /\ ~ In base_command nope_commands.
Proof.
  induction fuel as [|fuel IH]; intros world stdin argv H; [contradiction|].
  cbn [cli_loop] in H. destruct stdin as [|line more].
  - rewrite cli_loop_at_eof in H. cbn [fst] in H.
    destruct H as [H|[H|H]]; try discriminate H.
    exfalso. clear - H. induction fuel as [|fuel IHf]; [contradiction|].
    cbn [eof_iterations] in H.
    destruct H as [H|[H|H]]; try discriminate H. auto.
  - destruct (Str.mem (Str.lower (strip line)) ["exit"; "quit"]).
    { cbn in H. destruct H as [H|[H|[]]]; discriminate H. }
    destruct (String.eqb (strip line) EmptyString).
    + destruct (cli_loop fuel (fun n => world (S n)) more) as [t' r'] eqn:E.
      cbn [fst] in H. destruct H as [H|H]; [discriminate H|].
      destruct (IH (fun n => world (S n)) more argv) as [l [b [a [Hl Hr]]]].
      { now rewrite E. }
      exists l, b, a. split; [now right | exact Hr].
    + set (r := execute_command (strip line) None (world 0) more) in *.
      destruct (cli_loop fuel (fun n => world (S n)) (stdin_left r))
        as [t' r'] eqn:E.
      cbn [fst] in H. destruct H as [H|H]; [discriminate H|].
      apply in_app_or in H. destruct H as [H|[H|H]].
      * apply in_map_iff in H. destruct H as [e [He Hin]].
        injection He as ->.
        assert (Hex : In (EvRun argv) (executed (trace r)))
          by (apply filter_In; now split).
        destruct (execute_tokens_once nope_commands confirm_commands
                    secondary_filters (strip line) None
                    quiet_secondary_filters (world 0) more)
          as [Hnone|[b [a [Hs [Hn Hrun]]]]].
        { fold execute_command in Hnone. fold r in Hnone.
          unfold executed in Hex. now rewrite Hnone in Hex. }
        fold execute_command in Hrun. fold r in Hrun.
        unfold executed in Hex. rewrite Hrun in Hex.
        destruct Hex as [Hex|[]]. injection Hex as <-.
        exists line, b, a. split; [now left | auto].
      * discriminate H.
      * destruct (IH (fun n => world (S n)) (stdin_left r) argv)
          as [l [b [a [Hl Hr]]]].
        { now rewrite E. }
        exists l, b, a. split; [|exact Hr].
        right. now apply execute_leaves_suffix in Hl.
Qed.

(** X14.  In a whole interactive session, however long and whatever the
    ambient context of each iteration, every command line handed to the
    executor is the token list [shlex.split] made of a stripped line of
    the input, and its first token is not in the deny list. *)
Theorem cli_never_runs_denied_command :
  forall (fuel : nat) (world : nat -> Env) (stdin argv : list string),
    In (CliDoes (EvRun argv)) (fst (cli_interface fuel world stdin)) ->
    exists line base_command args,
      In line stdin
      /\ Shlex.split (strip line) = Some (base_command :: args)
      /\ argv = base_command :: args
      /\ ~ In base_command nope_commands.
Proof.
  intros fuel world stdin argv H. unfold cli_interface in H.
  destruct (cli_loop fuel world stdin) as [t r] eqn:E. cbn [fst] in H.
  destruct H as [H|[H|H]]; try discriminate H.
  apply (cli_loop_runs fuel world stdin argv). now rewrite E.
Qed.

Lemma cli_never_runs_denied_command_witness :
  exists line base_command args,
    In line ["rm -rf /"; " echo hi "; "exit"]
    /\ Shlex.split (strip line) = Some (base_command :: args)
    /\ ["echo"; "hi"] = base_command :: args
    /\ ~ In base_command nope_commands.
Proof.
  apply (cli_never_runs_denied_command 5 (fun _ => project_env)
           ["rm -rf /"; " echo hi "; "exit"] ["echo"; "hi"]).
  vm_compute. do 5 right. left. reflexivity.
Defined.

(* ------------------------------------------------------------------ *)
(** * The NPM filter                                                   *)
(* ------------------------------------------------------------------ *)

Lemma check_filters_npm command args env stdin :
  check_filters command "npm" args (Some true) secondary_filters env stdin
  = if npm_lists_directory args
    then match ls env with
         | inl e => mkRun (Raise e) stdin [EvCheckOutput ["ls"]]
         | inr _ => mkRun (Value (Next (Some true))) stdin
                      [EvCheckOutput ["ls"]]
         end
    else mkRun (Value (Next (Some true))) stdin [].
Proof.
  unfold secondary_filters. cbn [check_filters].
  replace (String.eqb (Filter.command pip_filter) "npm") with false
    by reflexivity.
  replace (String.eqb (Filter.command npm_filter) "npm") with true
    by reflexivity.
  replace (String.eqb (Filter.command docker_filter) "npm") with false
    by reflexivity.
  replace (String.eqb (Filter.command ssh_filter) "npm") with false
    by reflexivity.
  replace (String.eqb (Filter.command git_filter) "npm") with false
    by reflexivity.
  cbv iota.
  cbn [Filter.subcommand Filter.condition npm_filter truthy].
  replace (negb (String.eqb "install" EmptyString)) with true by reflexivity.
  unfold npm_lists_directory, npm_condition.
  assert (Hcond : forall args',
             bind (if negb (Str.mem "-g" args')
                   then is_within_project_directory else ret false)
               (fun fires =>
                  if fires
                  then bind (ask_or_cancel
                               (PromptFilter (Filter.message npm_filter)
                                  command) (Some true))
                         (fun step => match step with
                                      | Return m => ret (Return m)
                                      | Next user_confirm =>
                                          ret (Next user_confirm)
                                      end)
                  else ret (Next (Some true))) env stdin
             = if negb (Str.mem "-g" args')
               then match ls env with
                    | inl e => mkRun (Raise e) stdin [EvCheckOutput ["ls"]]
                    | inr _ => mkRun (Value (Next (Some true))) stdin
                                 [EvCheckOutput ["ls"]]
                    end
               else mkRun (Value (Next (Some true))) stdin []).
  { intros args'. destruct (negb (Str.mem "-g" args')); [|reflexivity].
    unfold is_within_project_directory, bind. rewrite check_output_ls_run.
    cbn [outcome stdin_left trace]. destruct (ls env) as [e|text];
      [reflexivity|].
    cbn [outcome stdin_left trace ret].
    destruct (existsb _ _); reflexivity. }
  destruct args as [|a rest]; [exact (Hcond [])|].
  cbn [length Nat.ltb Nat.leb first_differs andb].
  destruct (String.eqb a "install"); cbn [negb andb];
    [exact (Hcond (a :: rest)) | reflexivity].
Qed.

(** X15.  What the NPM filter does in [execute_command].  "npm" is in
    the confirm list, so a rejected command is cancelled before the
    filter is looked at.  For an approved command the answer of the
    project-directory check changes nothing: the command runs whether
    the directory holds a project file or not.  Only the listing itself
    shows: it is made when there is no subcommand or the subcommand is
    "install", and "-g" is not among the arguments, and when it fails
    its exception ends the submission before the command is run. *)
Theorem npm_filter_effect :
  forall (command : string) (args : list string) (env : Env)
         (stdin : list string),
    Shlex.split command = Some ("npm" :: args) ->
    let reported := Value (report "npm" (run env ("npm" :: args))) in
    execute_command command (Some false) env stdin
    = mkRun (Value CancelledByUser) stdin []
    /\ execute_command command (Some true) env stdin
       = if npm_lists_directory args
         then match ls env with
              | inl e => mkRun (Raise e) stdin [EvCheckOutput ["ls"]]
              | inr _ => mkRun reported stdin
                           [EvCheckOutput ["ls"]; EvRun ("npm" :: args)]
              end
         else mkRun reported stdin [EvRun ("npm" :: args)].
Proof.
  intros command args env stdin Hs reported.
  unfold execute_command, execute_command_with, shlex_split.
  rewrite Hs, !bind_ret.
  replace (Str.mem "npm" nope_commands) with false by reflexivity.
  replace (Str.mem "npm" confirm_commands) with true by reflexivity.
  cbv iota. split.
  - now rewrite (bind_value _ _ _ _ _ _ _
                   (ask_or_cancel_supplied _ false env stdin)).
  - rewrite (bind_value _ _ _ _ _ _ _
               (ask_or_cancel_supplied _ true env stdin)).
    unfold bind. rewrite check_filters_npm.
    destruct (npm_lists_directory args); [|reflexivity].
    destruct (ls env); reflexivity.
Qed.

Lemma npm_filter_effect_witness :
  execute_command npm_install (Some true) unreadable_env []
  = mkRun (Raise CalledProcessError) [] [EvCheckOutput ["ls"]].
Proof.
  apply (proj2 (npm_filter_effect npm_install ["install"; "left-pad"]
                  unreadable_env [] eq_refl)).
Defined.
